(** * Rag front end: file validation, upload flow and chat flow

    A shallow embedding of the two stateful React components of the
    repository, [FileUploader] (components/FileUploader.jsx) and [ChatPage]
    (components/ChatPage.jsx), and of the JavaScript string and array
    operations they call.

    - JavaScript strings are sequences of UTF-16 code units.  Here a string
      is a [string] of the Standard Library and every [ascii] stands for one
      code unit below 256 (the Latin-1 range); [toLowerCase] and [trim] are
      the ECMAScript functions restricted to that range.
    - A component's [useState] cells are the fields of a record; every
      handler is a function from the world before the event to the world
      after it.  What a handler does after an [await] is a handler of its
      own, run when the promise settles.
    - Timers and network requests are listed in the world, so that "no
      request is issued" and "the interval is cleared" are statements about
      it. *)

From Stdlib Require Import String Ascii List Arith NArith Bool Lia.
Import ListNotations.
Open Scope string_scope.

(** ** JavaScript strings and arrays *)

Module Js.

(** Code units with a lower-case partner, below 256: A-Z, and the
    Latin-1 capitals U+00C0..U+00DE without the multiplication sign. *)
Definition isUpperUnit (c : ascii) : bool :=
  let n := N_of_ascii c in
  ((65 <=? n) && (n <=? 90) ||
   (192 <=? n) && (n <=? 222) && negb (n =? 215))%N.

Definition lowerUnit (c : ascii) : ascii :=
  if isUpperUnit c then ascii_of_N (N_of_ascii c + 32) else c.

(** [String.prototype.toLowerCase] *)
Fixpoint toLowerCase (s : string) : string :=
  match s with
  | EmptyString => EmptyString
  | String c s' => String (lowerUnit c) (toLowerCase s')
  end.

(** WhiteSpace and LineTerminator code units below 256: TAB, LF, VT, FF,
    CR, SP and NBSP. *)
Definition isWhiteSpace (c : ascii) : bool :=
  let n := N_of_ascii c in
  ((9 <=? n) && (n <=? 13) || (n =? 32) || (n =? 160))%N.

Fixpoint trimStart (s : string) : string :=
  match s with
  | EmptyString => EmptyString
  | String c s' => if isWhiteSpace c then trimStart s' else s
  end.

Fixpoint trimEnd (s : string) : string :=
  match s with
  | EmptyString => EmptyString
  | String c s' =>
      match trimEnd s' with
      | EmptyString => if isWhiteSpace c then EmptyString
                       else String c EmptyString
      | t => String c t
      end
  end.

(** [String.prototype.trim] *)
Definition trim (s : string) : string := trimEnd (trimStart s).

(** Truthiness of a string: only the empty string is falsy. *)
Definition truthy (s : string) : bool :=
  match s with EmptyString => false | _ => true end.

(** [s.split(sep)] for a separator of one code unit.  The result always
    has at least one segment. *)
Fixpoint split (sep : ascii) (s : string) : list string :=
  match s with
  | EmptyString => [EmptyString]
  | String c s' =>
      if Ascii.eqb c sep then EmptyString :: split sep s'
      else match split sep s' with
           | seg :: rest => String c seg :: rest
           | [] => [String c EmptyString]
           end
  end.

(** [a.pop()] read as a value: the last element; [undefined] (here the
    default) only for an empty array, which [split] never returns. *)
Definition pop (a : list string) : string := last a EmptyString.

(** [a.push(x)] *)
Definition push {A} (a : list A) (x : A) : list A := a ++ [x].

(** [a.includes(x)] on an array of strings *)
Definition includes (a : list string) (x : string) : bool :=
  existsb (String.eqb x) a.

(** [a.join(sep)] *)
Fixpoint join (sep : string) (a : list string) : string :=
  match a with
  | [] => EmptyString
  | [x] => x
  | x :: rest => x ++ sep ++ join sep rest
  end.

(** [a.filter((_, i) => i !== index)] *)
Fixpoint filter_index_ne {A} (index : nat) (a : list A) : list A :=
  match a, index with
  | [], _ => []
  | _ :: rest, O => rest
  | x :: rest, S k => x :: filter_index_ne k rest
  end.

(** [a || b] on possibly-undefined strings: the first operand when it is
    truthy (defined and not empty), else the second. *)
Definition or_else (a b : option string) : option string :=
  match a with
  | Some s => if truthy s then a else b
  | None => b
  end.

(** [s] occurs in [t] as a substring. *)
Definition occurs_in (s t : string) : Prop :=
  exists pre post, t = pre ++ s ++ post.

(** [s] has no code unit [c]. *)
Fixpoint lacks (c : ascii) (s : string) : bool :=
  match s with
  | EmptyString => true
  | String d s' => negb (Ascii.eqb d c) && lacks c s'
  end.

(** Every code unit of [s] is white space. *)
Fixpoint allWhiteSpace (s : string) : bool :=
  match s with
  | EmptyString => true
  | String c s' => isWhiteSpace c && allWhiteSpace s'
  end.

End Js.

(** ** The file uploader *)

Module Uploader.
Import Js.

(** The two properties of a browser [File] the component reads. *)
Record File := { name : string; size : N }.

Record Message := { text : string; type : string }.

Definition allowedTypes : list string :=
  [".pdf"; ".txt"; ".docx"; ".doc"; ".csv"; ".md"].

Definition maxFileSize : N := 10 * 1024 * 1024.

Record Validation :=
  { validFiles : list File; invalidFiles : list string }.

(** ["." + file.name.split(".").pop().toLowerCase()] *)
Definition extension (file : File) : string :=
  "." ++ toLowerCase (pop (split "." (name file))).

(** The body of the [forEach] callback of [validateFiles], on the two
    arrays built so far. *)
Definition validateFile (acc : Validation) (file : File) : Validation :=
  if negb (includes allowedTypes (extension file)) then
    {| validFiles := validFiles acc;
       invalidFiles :=
         push (invalidFiles acc) (name file ++ " - Invalid file type") |}
  else if (maxFileSize <? size file)%N then
    {| validFiles := validFiles acc;
       invalidFiles :=
         push (invalidFiles acc)
              (name file ++ " - File too large (max 10MB)") |}
  else
    {| validFiles := push (validFiles acc) file;
       invalidFiles := invalidFiles acc |}.

Definition validateFiles (fileList : list File) : Validation :=
  fold_left validateFile fileList
            {| validFiles := []; invalidFiles := [] |}.

(** *** Component state, timers and requests *)

Record State :=
  { files : list File;
    message : Message;
    isUploading : bool;
    uploadProgress : N }.

(** The two operations of the HTTP client the component imports. *)
Inductive Endpoint := uploadFiles | resetFiles.

(** A multi-part request: the entries appended to the [FormData]. *)
Record Request :=
  { endpoint : Endpoint; formData : list (string * File) }.

(** A fulfilled request, as far as the component reads it:
    [response.data.message]. *)
Module Response.
Record Body := { message : string }.
Record t := { data : Body }.
End Response.

(** A rejected request: [error.response?.data?.detail] and
    [error.response?.data?.message], each possibly undefined. *)
Module AxiosError.
Record Body := { detail : option string; message : option string }.
Record Reply := { data : option Body }.
Record t := { response : option Reply }.
End AxiosError.

(** The component sets an interval whose callback is the progress tick and
    a timeout whose callback is [() => setUploadProgress(0)]. *)
Inductive Timer :=
| Interval (id : nat) (ms : N)
| Timeout (id : nat) (ms : N).

Definition timer_id (t : Timer) : nat :=
  match t with Interval id _ | Timeout id _ => id end.

Record World :=
  { state : State;
    fileInput : option string;          (* fileInputRef.current, its value *)
    timers : list Timer;                (* active timers *)
    nextTimer : nat;                    (* next timer id *)
    requests : list (nat * Request);    (* every request issued, in order *)
    inFlight : list nat }.              (* requests not yet settled *)

Definition noMessage : Message := {| text := ""; type := "" |}.

Definition initialState : State :=
  {| files := []; message := noMessage;
     isUploading := false; uploadProgress := 0 |}.

Definition initialWorld : World :=
  {| state := initialState; fileInput := Some "";
     timers := []; nextTimer := 0; requests := []; inFlight := [] |}.

Definition withState (f : State -> State) (w : World) : World :=
  {| state := f (state w); fileInput := fileInput w;
     timers := timers w; nextTimer := nextTimer w;
     requests := requests w; inFlight := inFlight w |}.

Definition setFiles (v : list File) : World -> World :=
  withState (fun s =>
    {| files := v; message := message s;
       isUploading := isUploading s; uploadProgress := uploadProgress s |}).

Definition setMessage (v : Message) : World -> World :=
  withState (fun s =>
    {| files := files s; message := v;
       isUploading := isUploading s; uploadProgress := uploadProgress s |}).

Definition setIsUploading (v : bool) : World -> World :=
  withState (fun s =>
    {| files := files s; message := message s;
       isUploading := v; uploadProgress := uploadProgress s |}).

Definition setUploadProgress (v : N) : World -> World :=
  withState (fun s =>
    {| files := files s; message := message s;
       isUploading := isUploading s; uploadProgress := v |}).

(** [fileInputRef.current.value = v], guarded by [if (fileInputRef.current)] *)
Definition setFileInputValue (v : string) (w : World) : World :=
  {| state := state w;
     fileInput := match fileInput w with Some _ => Some v | None => None end;
     timers := timers w; nextTimer := nextTimer w;
     requests := requests w; inFlight := inFlight w |}.

Definition addTimer (t : Timer) (w : World) : World :=
  {| state := state w; fileInput := fileInput w;
     timers := timers w ++ [t]; nextTimer := S (nextTimer w);
     requests := requests w; inFlight := inFlight w |}.

(** [setInterval(tick, ms)]; the id it returns is [nextTimer] before. *)
Definition setInterval (ms : N) (w : World) : World :=
  addTimer (Interval (nextTimer w) ms) w.

(** [setTimeout(() => setUploadProgress(0), ms)] *)
Definition setTimeout (ms : N) (w : World) : World :=
  addTimer (Timeout (nextTimer w) ms) w.

Definition dropTimer (id : nat) (w : World) : World :=
  {| state := state w; fileInput := fileInput w;
     timers := filter (fun t => negb (timer_id t =? id)%nat) (timers w);
     nextTimer := nextTimer w;
     requests := requests w; inFlight := inFlight w |}.

Definition clearInterval (id : nat) : World -> World := dropTimer id.

(** The interval [id] is set and not cleared. *)
Definition intervalActive (id : nat) (w : World) : bool :=
  existsb (fun t => match t with
                    | Interval i _ => (i =? id)%nat
                    | Timeout _ _ => false
                    end) (timers w).

(** The timeout [id] is set and has not fired. *)
Definition timeoutPending (id : nat) (w : World) : bool :=
  existsb (fun t => match t with
                    | Timeout i _ => (i =? id)%nat
                    | Interval _ _ => false
                    end) (timers w).

(** Issuing the request of submission [id]. *)
Definition issue (id : nat) (r : Request) (w : World) : World :=
  {| state := state w; fileInput := fileInput w;
     timers := timers w; nextTimer := nextTimer w;
     requests := requests w ++ [(id, r)]; inFlight := inFlight w ++ [id] |}.

(** The promise of submission [id] settles. *)
Definition settle (id : nat) (w : World) : World :=
  {| state := state w; fileInput := fileInput w;
     timers := timers w; nextTimer := nextTimer w;
     requests := requests w;
     inFlight := filter (fun k => negb (k =? id)%nat) (inFlight w) |}.

(** *** Handlers *)

Definition invalidFilesMessage (invalid : list string) : Message :=
  {| text := "Invalid files: " ++ join ", " invalid; type := "error" |}.

(** [handleFilesChange], with [fileList = e.target.files] *)
Definition handleFilesChange (fileList : list File) (w : World) : World :=
  if (length fileList =? 0)%nat then w
  else
    let v := validateFiles fileList in
    let w1 :=
      if (0 <? length (invalidFiles v))%nat
      then setMessage (invalidFilesMessage (invalidFiles v)) w
      else setMessage noMessage w in
    setFiles (validFiles v) w1.

(** [handleDrop], with [droppedFiles = e.dataTransfer.files] *)
Definition handleDrop (droppedFiles : list File) (w : World) : World :=
  if negb (length droppedFiles =? 0)%nat then
    let v := validateFiles droppedFiles in
    let w1 :=
      if (0 <? length (invalidFiles v))%nat
      then setMessage (invalidFilesMessage (invalidFiles v)) w
      else w in
    setFiles (validFiles v) w1
  else w.

(** [removeFile] *)
Definition removeFile (index : nat) (w : World) : World :=
  setFiles (filter_index_ne index (files (state w))) w.

(** The "Clear All" button: [() => setFiles([])] *)
Definition clearAll : World -> World := setFiles [].

(** [handleSubmit] up to its [await]: the world after, and the
    [progressInterval] the rest of the function holds on to ([None] when
    the function returned at its guard). *)
Definition handleSubmit (resetMode : bool) (w : World)
  : World * option nat :=
  if (length (files (state w)) =? 0)%nat then
    (setMessage
       {| text := "Please select files to upload"; type := "error" |} w,
     None)
  else
    let w1 := setMessage noMessage
                (setUploadProgress 0 (setIsUploading true w)) in
    let formData := map (fun file => ("files", file)) (files (state w)) in
    let progressInterval := nextTimer w1 in
    let w2 := setInterval 300 w1 in
    let w3 := issue progressInterval
                {| endpoint := if resetMode then resetFiles else uploadFiles;
                   formData := formData |} w2 in
    (w3, Some progressInterval).

(** The callback of the interval: the updater given to
    [setUploadProgress]. *)
Definition progressTick (progressInterval : nat) (w : World) : World :=
  if (80 <=? uploadProgress (state w))%N
  then setUploadProgress 80 (clearInterval progressInterval w)
  else setUploadProgress (uploadProgress (state w) + 5) w.

(** [handleSubmit] after its [await], when the request is fulfilled: the
    rest of the [try] block, then [finally]. *)
Definition handleSubmit_fulfilled
  (progressInterval : nat) (response : Response.t) (w : World) : World :=
  let w1 := clearInterval progressInterval (settle progressInterval w) in
  let w2 := setUploadProgress 100 w1 in
  let w3 := setMessage
              {| text := Response.message (Response.data response);
                 type := "success" |} w2 in
  let w4 := setFileInputValue "" (setFiles [] w3) in
  let w5 := setTimeout 2000 w4 in
  setIsUploading false w5.

Definition fallbackText : string :=
  "Error uploading files. Please try a smaller file.".

(** [error.response?.data] *)
Definition errorData (error : AxiosError.t) : option AxiosError.Body :=
  match AxiosError.response error with
  | Some reply => AxiosError.data reply
  | None => None
  end.

(** [error.response?.data?.detail] *)
Definition errorDetail (error : AxiosError.t) : option string :=
  match errorData error with
  | Some body => AxiosError.detail body
  | None => None
  end.

(** [error.response?.data?.message] *)
Definition errorMessage (error : AxiosError.t) : option string :=
  match errorData error with
  | Some body => AxiosError.message body
  | None => None
  end.

(** [error.response?.data?.detail || error.response?.data?.message ||
    "Error uploading files. ..."]; the last operand is a truthy string,
    so the value is always a string. *)
Definition errorText (error : AxiosError.t) : string :=
  match or_else (or_else (errorDetail error) (errorMessage error))
                (Some fallbackText) with
  | Some s => s
  | None => fallbackText
  end.

(** [handleSubmit] after its [await], when the request is rejected: the
    [catch] block, then [finally]. *)
Definition handleSubmit_rejected
  (progressInterval : nat) (error : AxiosError.t) (w : World) : World :=
  let w1 := setUploadProgress 0 (settle progressInterval w) in
  let w2 := setMessage {| text := errorText error; type := "error" |} w1 in
  setIsUploading false w2.

(** The callback of the timeout set on success. *)
Definition resetProgress (id : nat) (w : World) : World :=
  setUploadProgress 0 (dropTimer id w).

(** [cancelUpload] *)
Definition cancelUpload (w : World) : World :=
  setMessage {| text := "Upload cancelled"; type := "warning" |}
    (setUploadProgress 0 (setIsUploading false w)).

(** *** Events

    What can happen to a mounted component: the user acts, a timer fires
    (only while it is active), a request settles (only while it is in
    flight). *)
Inductive Event :=
| FilesChange (fileList : list File)
| Drop (droppedFiles : list File)
| RemoveFile (index : nat)
| ClearAll
| Submit
| Cancel
| Tick (id : nat)
| Fired (id : nat)
| Fulfilled (id : nat) (response : Response.t)
| Rejected (id : nat) (error : AxiosError.t).

Definition isInFlight (id : nat) (w : World) : bool :=
  existsb (Nat.eqb id) (inFlight w).

Definition step (resetMode : bool) (w : World) (e : Event) : World :=
  match e with
  | FilesChange l => handleFilesChange l w
  | Drop l => handleDrop l w
  | RemoveFile i => removeFile i w
  | ClearAll => clearAll w
  | Submit => fst (handleSubmit resetMode w)
  | Cancel => cancelUpload w
  | Tick id => if intervalActive id w then progressTick id w else w
  | Fired id => if timeoutPending id w then resetProgress id w else w
  | Fulfilled id r =>
      if isInFlight id w then handleSubmit_fulfilled id r w else w
  | Rejected id err =>
      if isInFlight id w then handleSubmit_rejected id err w else w
  end.

Definition run (resetMode : bool) (w : World) (es : list Event) : World :=
  fold_left (step resetMode) es w.

End Uploader.

(** ** The chat page *)

Module Chat.
Import Js.

Inductive Sender := user | bot.

(** A [Date], as the number of milliseconds it holds. *)
Definition Date := N.

(** An element of [messages]; [sources] is [None] where the object has no
    such property. *)
Record Turn :=
  { sender : Sender;
    text : string;
    timestamp : Date;
    sources : option (list string) }.

Record State :=
  { messages : list Turn; input : string; loading : bool }.

(** A fulfilled request, as far as the component reads it:
    [res.data.answer] and [res.data.sources]. *)
Module Answer.
Record Body := { answer : string; sources : option (list string) }.
Record t := { data : Body }.
End Answer.

Record World :=
  { state : State;
    requests : list string }.   (* the questions given to askQuestion *)

Definition greeting : string :=
  "Hello! I'm your supplier recommendation assistant. Ask me about finding the best suppliers for your business needs.".

Definition apology : string :=
  "Sorry, I encountered an error while processing your request. Please try again.".

Definition initialWorld (now : Date) : World :=
  {| state :=
       {| messages :=
            [ {| sender := bot; text := greeting;
                 timestamp := now; sources := None |} ];
          input := ""; loading := false |};
     requests := [] |}.

Definition withState (f : State -> State) (w : World) : World :=
  {| state := f (state w); requests := requests w |}.

(** [setMessages((prev) => [...prev, m])] *)
Definition appendMessage (m : Turn) : World -> World :=
  withState (fun s =>
    {| messages := messages s ++ [m];
       input := input s; loading := loading s |}).

Definition setInput (v : string) : World -> World :=
  withState (fun s =>
    {| messages := messages s; input := v; loading := loading s |}).

Definition setLoading (v : bool) : World -> World :=
  withState (fun s =>
    {| messages := messages s; input := input s; loading := v |}).

Definition askQuestion (question : string) (w : World) : World :=
  {| state := state w; requests := requests w ++ [question] |}.

(** [sendMessage] up to its [await]; [now] is what [new Date()] reads.
    The boolean tells whether the function went on to the request. *)
Definition sendMessage (now : Date) (w : World) : World * bool :=
  if negb (truthy (trim (input (state w)))) then (w, false)
  else
    let userMsg :=
      {| sender := user; text := input (state w);
         timestamp := now; sources := None |} in
    let w1 := setLoading true (setInput "" (appendMessage userMsg w)) in
    (askQuestion (input (state w)) w1, true).

(** [res.data.sources || []]: an array is truthy, also when it is
    empty. *)
Definition sourcesOrEmpty (s : option (list string)) : list string :=
  match s with Some l => l | None => [] end.

(** [sendMessage] after its [await], request fulfilled. *)
Definition sendMessage_fulfilled
  (now : Date) (res : Answer.t) (w : World) : World :=
  let botMsg :=
    {| sender := bot; text := Answer.answer (Answer.data res);
       timestamp := now;
       sources := Some (sourcesOrEmpty (Answer.sources (Answer.data res))) |} in
  setLoading false (appendMessage botMsg w).

(** [sendMessage] after its [await], request rejected. *)
Definition sendMessage_rejected (now : Date) (w : World) : World :=
  let botMsg :=
    {| sender := bot; text := apology;
       timestamp := now; sources := None |} in
  setLoading false (appendMessage botMsg w).

End Chat.

(** ** The uploader's view: icons and the guards on its controls *)

Module UploaderView.
Import Js Uploader.

(** The values of [fileIcons] and the default icon are single emoji; each
    is written as its two UTF-16 code units. *)
Definition Icon := list N.

Definition fileIcons : list (string * Icon) :=
  [ ("pdf", [55357; 56516]%N);
    ("txt", [55357; 56541]%N);
    ("docx", [55357; 56515]%N);
    ("doc", [55357; 56515]%N);
    ("csv", [55357; 56522]%N);
    ("md", [55357; 56523]%N) ].

Definition defaultIcon : Icon := [55357; 56513]%N.

(** [o[key]] on the own properties of an object literal. *)
Fixpoint lookup (key : string) (o : list (string * Icon)) : option Icon :=
  match o with
  | [] => None
  | (k, v) :: rest => if String.eqb key k then Some v else lookup key rest
  end.

(** [fileIcons[file.name.split(".").pop()] || default]: the key is the last
    segment of the name as it is written, not lower-cased; an empty string
    would be falsy.  The lookup is on the six entries of the literal; the
    properties every object inherits (constructor and the like) are keys
    that no file with an allowed extension has. *)
Definition fileIcon (file : File) : Icon :=
  match lookup (pop (split "." (name file))) fileIcons with
  | Some (c :: i) => c :: i
  | _ => defaultIcon
  end.

(** [disabled={isUploading}] on the file input, on "Clear All" and on the
    remove buttons. *)
Definition controlsDisabled (w : World) : bool := isUploading (state w).

(** [files.length > 0 && ...]: the list of selected files is shown. *)
Definition fileListShown (w : World) : bool :=
  (0 <? length (files (state w)))%nat.

(** [isUploading && ...] with [uploadProgress < 100 && ...]: the cancel
    button is shown. *)
Definition cancelShown (w : World) : bool :=
  isUploading (state w) && (uploadProgress (state w) <? 100)%N.

(** [disabled={isUploading || files.length === 0}] on the submit button. *)
Definition submitDisabled (w : World) : bool :=
  isUploading (state w) || (length (files (state w)) =? 0)%nat.

(** An event can happen: the control that raises it is rendered and not
    disabled, the timer is active, the request is in flight.  The drop zone
    has no guard. *)
Definition enabled (w : World) (e : Event) : bool :=
  match e with
  | FilesChange _ => negb (controlsDisabled w)
  | Drop _ => true
  | RemoveFile index =>
      negb (controlsDisabled w) && (index <? length (files (state w)))%nat
  | ClearAll => negb (controlsDisabled w) && fileListShown w
  | Submit => negb (submitDisabled w)
  | Cancel => cancelShown w
  | Tick id => intervalActive id w
  | Fired id => timeoutPending id w
  | Fulfilled id _ => isInFlight id w
  | Rejected id _ => isInFlight id w
  end.

(** The component driven through its view: an event that cannot happen
    leaves the world as it is. *)
Definition viewStep (resetMode : bool) (w : World) (e : Event) : World :=
  if enabled w e then step resetMode w e else w.

Definition viewRun (resetMode : bool) (w : World) (es : list Event) : World :=
  fold_left (viewStep resetMode) es w.

End UploaderView.

(** ** The chat page's events *)

Module ChatEvents.
Import Js Chat.

Inductive Event :=
| Change (value : string)                 (* onChange of the input *)
| Send (now : Date)                       (* the button or the Enter key *)
| Fulfilled (now : Date) (res : Answer.t)
| Rejected (now : Date).

Definition step (w : World) (e : Event) : World :=
  match e with
  | Change value => setInput value w
  | Send now => fst (sendMessage now w)
  | Fulfilled now res => sendMessage_fulfilled now res w
  | Rejected now => sendMessage_rejected now w
  end.

Definition run (w : World) (es : list Event) : World :=
  fold_left step es w.

(** The texts of the user's turns, in order. *)
Definition userTexts (ms : list Turn) : list string :=
  map text (filter (fun m => match sender m with
                             | user => true
                             | bot => false
                             end) ms).

End ChatEvents.

(** ** The chat page's view *)

Module ChatView.
Import Js Chat ChatEvents.

(** [disabled={loading}] on the input. *)
Definition inputDisabled (w : World) : bool := loading (state w).

(** An event can happen.  [sendMessage] runs from the button or from the
    Enter key in the input, so whenever the input is not disabled; it
    checks the text itself.  A request is outstanding from the
    [setLoading(true)] before it to the [setLoading(false)] after it. *)
Definition enabled (w : World) (e : Event) : bool :=
  match e with
  | Change _ => negb (inputDisabled w)
  | Send _ => negb (inputDisabled w)
  | Fulfilled _ _ => loading (state w)
  | Rejected _ => loading (state w)
  end.

Definition viewStep (w : World) (e : Event) : World :=
  if enabled w e then step w e else w.

Definition viewRun (w : World) (es : list Event) : World :=
  fold_left viewStep es w.

(** Senders that come as pairs of a user turn and a bot turn, with one
    more user turn at the end exactly when [waiting]. *)
Fixpoint alternates (ss : list Sender) (waiting : bool) : bool :=
  match ss with
  | [] => negb waiting
  | user :: rest =>
      match rest with
      | [] => waiting
      | bot :: rest' => alternates rest' waiting
      | user :: _ => false
      end
  | bot :: _ => false
  end.

End ChatView.

(** ** Invariants of the upload flow *)

Module Invariants.
Import Js Uploader.

(** What [validateFiles] asks of a file it accepts. *)
Definition fileValid (file : File) : Prop :=
  includes allowedTypes (extension file) = true /\
  (size file <= maxFileSize)%N.

(** A request carries at least one file, every entry under the field
    "files" and every file valid. *)
Definition requestValid (r : Request) : Prop :=
  formData r <> [] /\
  forall field file,
    In (field, file) (formData r) -> field = "files" /\ fileValid file.

(** The selection and every request issued hold valid files only. *)
Definition selectionValid (w : World) : Prop :=
  (forall file, In file (files (state w)) -> fileValid file) /\
  (forall id r, In (id, r) (requests w) -> requestValid r).

(** The percentage is a multiple of 5 up to 80, or it is 100 and the
    component is not uploading. *)
Definition onGrid (w : World) : Prop :=
  (exists j : N, (j <= 16)%N /\ uploadProgress (state w) = (5 * j)%N) \/
  (uploadProgress (state w) = 100%N /\ isUploading (state w) = false).

(** Every timer id and every request id handed out is below the next one
    to hand out. *)
Definition idsBelowNext (w : World) : Prop :=
  (forall t, In t (timers w) -> timer_id t < nextTimer w) /\
  (forall id, In id (inFlight w) -> id < nextTimer w).

(** Uploading with exactly one request in flight, or idle with none. *)
Definition oneAtATime (w : World) : Prop :=
  (isUploading (state w) = true /\ exists id, inFlight w = [id]) \/
  (isUploading (state w) = false /\ inFlight w = []).

End Invariants.

(** ** The specification's vocabulary

    Definitions that follow the words of the specification, to be compared
    with the code's. *)

Module Spec.
Import Js Uploader.

(** The substring after the last [sep] of [s], in the words of the
    specification; [None] when [s] has no [sep]. *)
Fixpoint afterLast (sep : ascii) (s : string) : option string :=
  match s with
  | EmptyString => None
  | String c s' =>
      match afterLast sep s' with
      | Some t => Some t
      | None => if Ascii.eqb c sep then Some s' else None
      end
  end.

(** The allow-list as the specification writes it, without the dots. *)
Definition allowList : list string :=
  ["pdf"; "txt"; "docx"; "doc"; "csv"; "md"].

(** 10 MiB *)
Definition sizeCeiling : N := 10485760.

(** "Extension = substring after the last [.] in name, lower-cased";
    [None] for a name without a dot, of which the specification says
    nothing. *)
Definition extensionOf (name : string) : option string :=
  option_map toLowerCase (afterLast "." name).

Inductive Reason := invalid_file_type | file_too_large.

(** The reason as the code words it. *)
Definition reasonText (r : Reason) : string :=
  match r with
  | invalid_file_type => "Invalid file type"
  | file_too_large => "File too large (max 10MB)"
  end.

(** The entry of a rejected file in the validator's output: its name and
    the reason. *)
Definition rejection (file : File) (r : Reason) : string :=
  name file ++ " - " ++ reasonText r.

(** The validator's rule for one file: [None] for an accepted file.  A
    name without a dot counts as its own extension, as the code has it. *)
Definition verdict (file : File) : option Reason :=
  let ext :=
    match extensionOf (name file) with
    | Some e => e
    | None => toLowerCase (name file)
    end in
  if in_dec string_dec ext allowList then
    if (sizeCeiling <? size file)%N then Some file_too_large else None
  else Some invalid_file_type.

Definition accepted (file : File) : bool :=
  match verdict file with None => true | Some _ => false end.

Definition rejections (file : File) : list string :=
  match verdict file with None => [] | Some r => [rejection file r] end.

End Spec.

(** ** Facts about the string and array operations *)

Module JsFacts.
Import Js Spec.

Lemma afterLast_none (sep : ascii) (s : string) :
  afterLast sep s = None <-> lacks sep s = true.
Proof.
  induction s as [|c s IH]; simpl.
  - tauto.
  - destruct (afterLast sep s) as [t|].
    + split; [discriminate|].
      rewrite andb_true_iff. intros [_ H]. apply IH in H. discriminate.
    + destruct (Ascii.eqb c sep); simpl.
      * split; discriminate.
      * split; intros _; [now apply IH | reflexivity].
Qed.

(** [afterLast] is what its name says: [s] ends with [sep] followed by
    [t], and [t] has no [sep]. *)
Lemma afterLast_some (sep : ascii) (s t : string) :
  afterLast sep s = Some t <->
  exists pre, s = pre ++ String sep t /\ lacks sep t = true.
Proof.
  revert t. induction s as [|c s IH]; intros t; simpl.
  - split; [discriminate|]. intros [[|d pre] [H _]]; discriminate.
  - destruct (afterLast sep s) as [u|] eqn:E.
    + split.
      * intros [= <-]. destruct (proj1 (IH u) eq_refl) as [pre [-> H]].
        exists (String c pre). now split.
      * intros [[|d pre] [H L]]; simpl in H; injection H; intros; subst.
        -- apply afterLast_none in L. congruence.
        -- f_equal. assert (Some u = Some t) as [= ->]; [|reflexivity].
           apply IH. now exists pre.
    + destruct (Ascii.eqb_spec c sep) as [->|N].
      * split.
        -- intros [= <-]. exists EmptyString. split; [reflexivity|].
           now apply afterLast_none.
        -- intros [[|d pre] [H L]]; simpl in H; injection H; intros; subst.
           ++ reflexivity.
           ++ exfalso. assert (None = Some t) by (apply IH; now exists pre).
              discriminate.
      * split; [discriminate|].
        intros [[|d pre] [H L]]; simpl in H; injection H; intros; subst.
        -- congruence.
        -- exfalso. assert (None = Some t) by (apply IH; now exists pre).
           discriminate.
Qed.

Lemma split_not_nil (sep : ascii) (s : string) : split sep s <> [].
Proof.
  destruct s as [|c s]; simpl; [discriminate|].
  destruct (Ascii.eqb c sep); [discriminate|].
  destruct (split sep s); discriminate.
Qed.

(** The shape of [split]: one segment without a separator, or several
    with the substring after the last separator at the end. *)
Lemma split_shape (sep : ascii) (s : string) :
  match afterLast sep s with
  | None => split sep s = [s]
  | Some t => exists seg segs, split sep s = (seg :: segs ++ [t])%list
  end.
Proof.
  induction s as [|c s IH]; simpl; [reflexivity|].
  destruct (afterLast sep s) as [t|].
  - destruct IH as [seg [segs ->]].
    destruct (Ascii.eqb c sep).
    + now exists EmptyString, (seg :: segs).
    + now exists (String c seg), segs.
  - rewrite IH. destruct (Ascii.eqb c sep).
    + now exists EmptyString, [].
    + reflexivity.
Qed.

(** [s.split(sep).pop()] is the substring after the last [sep], and the
    whole of [s] when it has none. *)
Lemma pop_split (sep : ascii) (s : string) :
  pop (split sep s) =
  match afterLast sep s with Some t => t | None => s end.
Proof.
  pose proof (split_shape sep s) as H. unfold pop.
  destruct (afterLast sep s) as [t|].
  - destruct H as [seg [segs ->]].
    change (seg :: segs ++ [t])%list with ((seg :: segs) ++ [t])%list.
    apply last_last.
  - now rewrite H.
Qed.

Lemma includes_In (a : list string) (x : string) :
  includes a x = true <-> In x a.
Proof.
  unfold includes. rewrite existsb_exists. split.
  - intros [y [Hy E]]. apply String.eqb_eq in E. now subst.
  - intros H. exists x. split; [assumption | apply String.eqb_refl].
Qed.

End JsFacts.

(** ** The validator *)

Module ValidatorFacts.
Import Js Uploader Spec JsFacts.

Lemma extension_eq (file : File) :
  extension file =
  String "." (match extensionOf (name file) with
              | Some e => e
              | None => toLowerCase (name file)
              end).
Proof.
  unfold extension, extensionOf. rewrite pop_split.
  now destruct (afterLast "." (name file)).
Qed.

(** The code's list, with dots, and the specification's, without. *)
Lemma allowed_iff (e : string) :
  includes allowedTypes (String "." e) = true <-> In e allowList.
Proof.
  rewrite includes_In. unfold allowedTypes, allowList. simpl.
  split; intros H;
    repeat (destruct H as [H|H];
            [ try injection H as H; subst e; simpl; auto 10 | ]);
    contradiction.
Qed.

Lemma maxFileSize_eq : maxFileSize = sizeCeiling.
Proof. reflexivity. Qed.

(** One round of the [forEach] loop follows the specification's rule. *)
Lemma validateFile_verdict (acc : Validation) (file : File) :
  validateFile acc file =
  {| validFiles := validFiles acc ++ (if accepted file then [file] else []);
     invalidFiles := invalidFiles acc ++ rejections file |}.
Proof.
  unfold validateFile, accepted, rejections, verdict, push.
  rewrite extension_eq, maxFileSize_eq.
  set (e := match extensionOf (name file) with
            | Some e => e
            | None => toLowerCase (name file)
            end).
  destruct (in_dec string_dec e allowList) as [Hin|Hout].
  - apply allowed_iff in Hin. rewrite Hin. simpl.
    destruct (sizeCeiling <? size file)%N; simpl;
      now rewrite app_nil_r.
  - destruct (includes allowedTypes (String "." e)) eqn:E.
    + apply allowed_iff in E. contradiction.
    + simpl. now rewrite app_nil_r.
Qed.

Lemma fold_validateFile (l : list File) (acc : Validation) :
  fold_left validateFile l acc =
  {| validFiles := validFiles acc ++ filter accepted l;
     invalidFiles := invalidFiles acc ++ flat_map rejections l |}.
Proof.
  revert acc. induction l as [|file l IH]; intros acc; simpl.
  - rewrite !app_nil_r. now destruct acc.
  - rewrite IH, validateFile_verdict. simpl.
    rewrite <- !app_assoc. now destruct (accepted file).
Qed.

(** [validateFiles] refines the specification's validator: the accepted
    files in input order, and one entry for each rejected file, in input
    order. *)
Lemma validateFiles_spec (fileList : list File) :
  validateFiles fileList =
  {| validFiles := filter accepted fileList;
     invalidFiles := flat_map rejections fileList |}.
Proof. unfold validateFiles. now rewrite fold_validateFile. Qed.

(** The outcome for a file in the middle of a list. *)
Lemma validateFiles_middle (before after : list File) (file : File) :
  validateFiles (before ++ file :: after) =
  {| validFiles :=
       validFiles (validateFiles before) ++
       (if accepted file then [file] else []) ++
       validFiles (validateFiles after);
     invalidFiles :=
       invalidFiles (validateFiles before) ++
       rejections file ++
       invalidFiles (validateFiles after) |}.
Proof.
  rewrite !validateFiles_spec. simpl.
  rewrite filter_app, flat_map_app. simpl.
  now destruct (accepted file).
Qed.

Lemma verdict_dotted (file : File) (e : string) :
  extensionOf (name file) = Some e ->
  verdict file =
  if in_dec string_dec e allowList then
    if (sizeCeiling <? size file)%N then Some file_too_large else None
  else Some invalid_file_type.
Proof. unfold verdict. now intros ->. Qed.

Lemma verdict_dotless (file : File) :
  extensionOf (name file) = None ->
  verdict file =
  if in_dec string_dec (toLowerCase (name file)) allowList then
    if (sizeCeiling <? size file)%N then Some file_too_large else None
  else Some invalid_file_type.
Proof. unfold verdict. now intros ->. Qed.

(** A name that ends in a dot and [ext], where [ext] has no dot. *)
Lemma extensionOf_suffix (stem ext : string) :
  lacks "." ext = true ->
  extensionOf (stem ++ String "." ext) = Some (toLowerCase ext).
Proof.
  intros H. unfold extensionOf.
  assert (afterLast "." (stem ++ String "." ext) = Some ext) as ->.
  { apply afterLast_some. now exists stem. }
  reflexivity.
Qed.

(** The specification writes the reasons in lower case and without the
    hint on the limit; the code's wording, lower-cased, is this. *)
Lemma reasonText_lower :
  toLowerCase (reasonText invalid_file_type) = "invalid file type" /\
  toLowerCase (reasonText file_too_large) = "file too large (max 10mb)".
Proof. split; reflexivity. Qed.

End ValidatorFacts.

Module ValidatorSpec.
Import Js Uploader Spec JsFacts ValidatorFacts.

(** C1.  A file whose extension (the substring after the last dot of its
    name, lower-cased) is not one of pdf, txt, docx, doc, csv, md is
    rejected with the reason "Invalid file type", whatever its size: it
    is left out of the accepted files and its entry is added to the
    rejected ones, wherever it stands in the list. *)
Theorem invalid_type_rejected
  (before after : list File) (file : File) (e : string) :
  extensionOf (name file) = Some e ->
  ~ In e allowList ->
  validateFiles (before ++ file :: after) =
  {| validFiles :=
       validFiles (validateFiles before) ++
       validFiles (validateFiles after);
     invalidFiles :=
       invalidFiles (validateFiles before) ++
       (name file ++ " - Invalid file type") ::
       invalidFiles (validateFiles after) |}.
Proof.
  intros He Hout. rewrite validateFiles_middle.
  unfold accepted, rejections. rewrite (verdict_dotted file e He).
  destruct (in_dec string_dec e allowList); [contradiction|].
  reflexivity.
Qed.

Lemma invalid_type_rejected_witness :
  extensionOf "setup.exe" = Some "exe" /\
  ~ In "exe" allowList /\
  validateFiles ([] ++ {| name := "setup.exe"; size := 20000000 |} :: []) =
  {| validFiles := [];
     invalidFiles := ["setup.exe - Invalid file type"] |}.
Proof.
  assert (extensionOf "setup.exe" = Some "exe") as He by reflexivity.
  assert (~ In "exe" allowList) as Hout
      by (simpl; intuition discriminate).
  split; [exact He|]. split; [exact Hout|].
  exact (invalid_type_rejected
           [] [] {| name := "setup.exe"; size := 20000000 |} "exe" He Hout).
Defined.

(** C2.  A file whose extension is in the allow-list is rejected with the
    reason "File too large (max 10MB)" exactly when its size exceeds
    10,485,760 bytes, and is accepted otherwise; an accepted file stands
    between the accepted files before it and those after it, and the
    accepted files are the input list filtered, so in input order. *)
Theorem valid_type_size_rule
  (before after : list File) (file : File) (e : string) :
  extensionOf (name file) = Some e ->
  In e allowList ->
  validateFiles (before ++ file :: after) =
  (if (10485760 <? size file)%N then
     {| validFiles :=
          validFiles (validateFiles before) ++
          validFiles (validateFiles after);
        invalidFiles :=
          invalidFiles (validateFiles before) ++
          (name file ++ " - File too large (max 10MB)") ::
          invalidFiles (validateFiles after) |}
   else
     {| validFiles :=
          validFiles (validateFiles before) ++
          file :: validFiles (validateFiles after);
        invalidFiles :=
          invalidFiles (validateFiles before) ++
          invalidFiles (validateFiles after) |})
  /\ validFiles (validateFiles (before ++ file :: after)) =
     filter accepted (before ++ file :: after).
Proof.
  intros He Hin. split.
  - rewrite validateFiles_middle.
    unfold accepted, rejections. rewrite (verdict_dotted file e He).
    destruct (in_dec string_dec e allowList); [|contradiction].
    change sizeCeiling with 10485760%N.
    now destruct (10485760 <? size file)%N.
  - now rewrite validateFiles_spec.
Qed.

Lemma valid_type_size_rule_witness :
  validateFiles ([ {| name := "notes.TXT"; size := 10485760 |} ] ++
                 {| name := "scan.pdf"; size := 10485761 |} :: []) =
  {| validFiles := [ {| name := "notes.TXT"; size := 10485760 |} ];
     invalidFiles := ["scan.pdf - File too large (max 10MB)"] |} /\
  validateFiles ([] ++ {| name := "notes.TXT"; size := 10485760 |} ::
                 [ {| name := "scan.pdf"; size := 10485761 |} ]) =
  {| validFiles := [ {| name := "notes.TXT"; size := 10485760 |} ];
     invalidFiles := ["scan.pdf - File too large (max 10MB)"] |}.
Proof.
  split.
  - refine (proj1 (valid_type_size_rule
                     [ {| name := "notes.TXT"; size := 10485760 |} ] []
                     {| name := "scan.pdf"; size := 10485761 |} "pdf" _ _)).
    + reflexivity.
    + simpl. auto.
  - refine (proj1 (valid_type_size_rule
                     [] [ {| name := "scan.pdf"; size := 10485761 |} ]
                     {| name := "notes.TXT"; size := 10485760 |} "txt" _ _)).
    + reflexivity.
    + simpl. auto.
Defined.

(** C9.  For a name without a dot the whole name, lower-cased, is the
    extension: a file named pdf, txt, docx, doc, csv or md in any letter
    case is accepted when its size is within the limit, and a file with
    any other dotless name is rejected with "Invalid file type". *)
Theorem dotless_name_is_extension
  (before after : list File) (file : File) :
  lacks "." (name file) = true ->
  extension file = "." ++ toLowerCase (name file) /\
  (In (toLowerCase (name file)) allowList ->
   (size file <= 10485760)%N ->
   validateFiles (before ++ file :: after) =
   {| validFiles :=
        validFiles (validateFiles before) ++
        file :: validFiles (validateFiles after);
      invalidFiles :=
        invalidFiles (validateFiles before) ++
        invalidFiles (validateFiles after) |}) /\
  (~ In (toLowerCase (name file)) allowList ->
   validateFiles (before ++ file :: after) =
   {| validFiles :=
        validFiles (validateFiles before) ++
        validFiles (validateFiles after);
      invalidFiles :=
        invalidFiles (validateFiles before) ++
        (name file ++ " - Invalid file type") ::
        invalidFiles (validateFiles after) |}).
Proof.
  intros Hno.
  assert (extensionOf (name file) = None) as He.
  { unfold extensionOf. apply afterLast_none in Hno. now rewrite Hno. }
  split; [|split].
  - rewrite extension_eq, He. reflexivity.
  - intros Hin Hsize. rewrite validateFiles_middle.
    unfold accepted, rejections. rewrite (verdict_dotless file He).
    destruct (in_dec string_dec _ allowList); [|contradiction].
    change sizeCeiling with 10485760%N.
    apply N.ltb_ge in Hsize. now rewrite Hsize.
  - intros Hout. rewrite validateFiles_middle.
    unfold accepted, rejections. rewrite (verdict_dotless file He).
    destruct (in_dec string_dec _ allowList); [contradiction|].
    reflexivity.
Qed.

Lemma dotless_name_is_extension_witness :
  validateFiles ([] ++ {| name := "Pdf"; size := 512 |} :: []) =
  {| validFiles := [ {| name := "Pdf"; size := 512 |} ];
     invalidFiles := [] |} /\
  validateFiles ([] ++ {| name := "README"; size := 512 |} :: []) =
  {| validFiles := [];
     invalidFiles := ["README - Invalid file type"] |}.
Proof.
  split.
  - refine (proj1 (proj2
             (dotless_name_is_extension
                [] [] {| name := "Pdf"; size := 512 |} eq_refl)) _ _).
    + simpl. auto.
    + simpl. lia.
  - refine (proj2 (proj2
             (dotless_name_is_extension
                [] [] {| name := "README"; size := 512 |} eq_refl)) _).
    simpl. intuition discriminate.
Defined.

End ValidatorSpec.

(** ** The upload flow *)

Module UploaderFacts.
Import Js Uploader Spec JsFacts ValidatorFacts.

Lemma append_nil_r (s : string) : s ++ "" = s.
Proof. induction s as [|c s IH]; simpl; congruence. Qed.

Lemma append_assoc (s t u : string) : (s ++ t) ++ u = s ++ t ++ u.
Proof. induction s as [|c s IH]; simpl; congruence. Qed.

Lemma occurs_in_refl (s : string) : occurs_in s s.
Proof. exists "", "". simpl. now rewrite append_nil_r. Qed.

Lemma occurs_in_after (p s t : string) :
  occurs_in s t -> occurs_in s (p ++ t).
Proof.
  intros [pre [post ->]]. exists (p ++ pre), post.
  now rewrite append_assoc.
Qed.

Lemma occurs_in_before (q s t : string) :
  occurs_in s t -> occurs_in s (t ++ q).
Proof.
  intros [pre [post ->]]. exists pre, (post ++ q).
  now rewrite !append_assoc.
Qed.

Lemma occurs_in_trans (s t u : string) :
  occurs_in s t -> occurs_in t u -> occurs_in s u.
Proof.
  intros H [pre [post ->]].
  now apply occurs_in_after, occurs_in_before.
Qed.

(** Every element of an array occurs in its [join]. *)
Lemma occurs_in_join (sep x : string) (a : list string) :
  In x a -> occurs_in x (join sep a).
Proof.
  induction a as [|y a IH]; [contradiction|].
  intros Hin. destruct a as [|z a].
  - destruct Hin as [->|[]]. apply occurs_in_refl.
  - change (join sep (y :: z :: a)) with (y ++ sep ++ join sep (z :: a)).
    destruct Hin as [->|Hin].
    + apply occurs_in_before, occurs_in_refl.
    + now apply occurs_in_after, occurs_in_after, IH.
Qed.

Lemma rejection_listed (fileList : list File) (file : File) (r : Reason) :
  In file fileList -> verdict file = Some r ->
  In (rejection file r) (invalidFiles (validateFiles fileList)).
Proof.
  intros Hin Hv. rewrite validateFiles_spec. simpl.
  apply in_flat_map. exists file. split; [assumption|].
  unfold rejections. rewrite Hv. now left.
Qed.

Lemma validateFiles_nil :
  validateFiles [] = {| validFiles := []; invalidFiles := [] |}.
Proof. reflexivity. Qed.

(** The two selection handlers on a batch with a rejected file. *)
Lemma handleFilesChange_rejecting (fileList : list File) (w : World) :
  invalidFiles (validateFiles fileList) <> [] ->
  handleFilesChange fileList w =
  setFiles (validFiles (validateFiles fileList))
    (setMessage (invalidFilesMessage (invalidFiles (validateFiles fileList)))
                w).
Proof.
  intros H. unfold handleFilesChange.
  destruct fileList as [|file l]; [now elim H|]. simpl length at 1.
  cbv beta iota delta [Nat.eqb].
  destruct (invalidFiles (validateFiles (file :: l))); [now elim H|].
  reflexivity.
Qed.

Lemma handleDrop_rejecting (droppedFiles : list File) (w : World) :
  invalidFiles (validateFiles droppedFiles) <> [] ->
  handleDrop droppedFiles w =
  setFiles (validFiles (validateFiles droppedFiles))
    (setMessage
       (invalidFilesMessage (invalidFiles (validateFiles droppedFiles))) w).
Proof.
  intros H. unfold handleDrop.
  destruct droppedFiles as [|file l]; [now elim H|]. simpl length at 1.
  cbv beta iota delta [Nat.eqb negb].
  destruct (invalidFiles (validateFiles (file :: l))); [now elim H|].
  reflexivity.
Qed.

(** The two selection handlers on a batch of accepted files only. *)
Lemma handleFilesChange_accepting (fileList : list File) (w : World) :
  fileList <> [] ->
  invalidFiles (validateFiles fileList) = [] ->
  handleFilesChange fileList w =
  setFiles (validFiles (validateFiles fileList)) (setMessage noMessage w).
Proof.
  intros Hne H. unfold handleFilesChange.
  destruct fileList as [|file l]; [now elim Hne|]. simpl length at 1.
  cbv beta iota delta [Nat.eqb]. now rewrite H.
Qed.

Lemma handleDrop_accepting (droppedFiles : list File) (w : World) :
  droppedFiles <> [] ->
  invalidFiles (validateFiles droppedFiles) = [] ->
  handleDrop droppedFiles w =
  setFiles (validFiles (validateFiles droppedFiles)) w.
Proof.
  intros Hne H. unfold handleDrop.
  destruct droppedFiles as [|file l]; [now elim Hne|]. simpl length at 1.
  cbv beta iota delta [Nat.eqb negb]. now rewrite H.
Qed.

(** An empty list of files: both handlers return at their guard. *)
Lemma handlers_ignore_empty (w : World) :
  handleFilesChange [] w = w /\ handleDrop [] w = w.
Proof. split; reflexivity. Qed.

(** The verdict on a name that ends in a dot and a dotless [ext]. *)
Lemma verdict_suffix (stem ext : string) (n : N) :
  lacks "." ext = true ->
  verdict {| name := stem ++ String "." ext; size := n |} =
  if in_dec string_dec (toLowerCase ext) allowList then
    if (sizeCeiling <? n)%N then Some file_too_large else None
  else Some invalid_file_type.
Proof.
  intros H. apply verdict_dotted. simpl. now apply extensionOf_suffix.
Qed.

(** Clearing a timer removes every timer of that id. *)
Lemma intervalActive_cleared (id : nat) (w : World) (rest : list Timer) :
  (forall t, In t rest -> match t with
                          | Interval _ _ => False
                          | Timeout _ _ => True
                          end) ->
  existsb (fun t => match t with
                    | Interval i _ => (i =? id)%nat
                    | Timeout _ _ => false
                    end)
          (timers (clearInterval id w) ++ rest) = false.
Proof.
  intros Hrest. rewrite existsb_app. apply orb_false_iff. split.
  - apply not_true_is_false. intros H.
    apply existsb_exists in H. destruct H as [t [Hin Ht]].
    unfold clearInterval, dropTimer in Hin. cbn [timers] in Hin.
    apply filter_In in Hin. destruct Hin as [_ Hne].
    destruct t as [i ms|i ms]; [|discriminate].
    cbn [timer_id] in Hne. rewrite Ht in Hne. discriminate.
  - apply not_true_is_false. intros H.
    apply existsb_exists in H. destruct H as [t [Hin Ht]].
    specialize (Hrest t Hin). destruct t; [contradiction|discriminate].
Qed.

Lemma or_else_truthy (a b : option string) (s : string) :
  a = Some s -> s <> "" -> or_else a b = Some s.
Proof. intros -> H. destruct s; [now elim H|reflexivity]. Qed.

Lemma or_else_falsy (a b : option string) :
  a = None \/ a = Some "" -> or_else a b = b.
Proof. now intros [->| ->]. Qed.

End UploaderFacts.

Module UploaderSpec.
Import Js Uploader Spec JsFacts ValidatorFacts UploaderFacts.

(** C3.  When the validator rejects at least one file of a batch given to
    [handleFilesChange], the message becomes an error whose text is
    "Invalid files: " followed by the rejected entries joined by ", ", so
    that the name and reason of every rejected file occur in it, and the
    selection becomes the accepted files all the same.  In particular a
    2 MiB .pdf, an .exe and an 11 MiB .docx give a selection of the .pdf
    alone and an error text that names the .exe and the .docx. *)
Theorem partial_rejection_keeps_accepted :
  (forall (fileList : list File) (w : World),
      invalidFiles (validateFiles fileList) <> [] ->
      let w' := handleFilesChange fileList w in
      message (state w') =
        {| text := "Invalid files: " ++
                   join ", " (invalidFiles (validateFiles fileList));
           type := "error" |} /\
      (forall file r,
          In file fileList -> verdict file = Some r ->
          occurs_in (name file ++ " - " ++ reasonText r)
                    (text (message (state w')))) /\
      files (state w') = validFiles (validateFiles fileList) /\
      files (state w') = filter accepted fileList) /\
  (forall (stemP stemE stemD : string) (sizeE : N) (w : World),
      let pdf := {| name := stemP ++ ".pdf"; size := 2 * 1024 * 1024 |} in
      let exe := {| name := stemE ++ ".exe"; size := sizeE |} in
      let docx := {| name := stemD ++ ".docx"; size := 11 * 1024 * 1024 |} in
      let w' := handleFilesChange [pdf; exe; docx] w in
      files (state w') = [pdf] /\
      message (state w') =
        {| text := "Invalid files: " ++
                   join ", " [name exe ++ " - Invalid file type";
                              name docx ++ " - File too large (max 10MB)"];
           type := "error" |} /\
      occurs_in (name exe) (text (message (state w'))) /\
      occurs_in (name docx) (text (message (state w')))).
Proof.
  split.
  - intros fileList w H w'. subst w'.
    rewrite (handleFilesChange_rejecting fileList w H).
    cbn [setFiles setMessage withState invalidFilesMessage
         state message files text type].
    split; [reflexivity|]. split; [|split].
    + intros file r Hin Hv. apply occurs_in_after, occurs_in_join.
      now apply (rejection_listed fileList file r).
    + reflexivity.
    + now rewrite validateFiles_spec.
  - intros stemP stemE stemD sizeE w pdf exe docx.
    assert (validateFiles [pdf; exe; docx] =
            {| validFiles := [pdf];
               invalidFiles :=
                 [name exe ++ " - Invalid file type";
                  name docx ++ " - File too large (max 10MB)"] |}) as Hv.
    { rewrite validateFiles_spec. unfold accepted, rejections.
      cbn [filter flat_map]. subst pdf exe docx.
      rewrite !verdict_suffix by reflexivity. reflexivity. }
    intros w'. subst w'.
    rewrite handleFilesChange_rejecting by (rewrite Hv; discriminate).
    rewrite Hv.
    cbn [setFiles setMessage withState invalidFilesMessage
         state message files text type validFiles invalidFiles].
    split; [reflexivity|]. split; [reflexivity|].
    split; apply occurs_in_after.
    + apply occurs_in_trans with (name exe ++ " - Invalid file type").
      * apply occurs_in_before, occurs_in_refl.
      * apply occurs_in_join. now left.
    + apply occurs_in_trans
        with (name docx ++ " - File too large (max 10MB)").
      * apply occurs_in_before, occurs_in_refl.
      * apply occurs_in_join. right. now left.
Qed.

Lemma partial_rejection_keeps_accepted_witness :
  files (state (handleFilesChange
                  [ {| name := "a.pdf"; size := 10 |};
                    {| name := "b.exe"; size := 10 |} ] initialWorld)) =
  [ {| name := "a.pdf"; size := 10 |} ] /\
  text (message (state (handleFilesChange
                  [ {| name := "a.pdf"; size := 10 |};
                    {| name := "b.exe"; size := 10 |} ] initialWorld))) =
  "Invalid files: b.exe - Invalid file type".
Proof.
  pose proof (proj1 partial_rejection_keeps_accepted
                [ {| name := "a.pdf"; size := 10 |};
                  {| name := "b.exe"; size := 10 |} ] initialWorld) as H.
  cbv zeta in H.
  assert (invalidFiles (validateFiles
                  [ {| name := "a.pdf"; size := 10 |};
                    {| name := "b.exe"; size := 10 |} ]) <> [])
    as Hrej by (vm_compute; discriminate).
  destruct (H Hrej) as [Hm [_ [Hf _]]].
  split.
  - rewrite Hf. reflexivity.
  - rewrite Hm. reflexivity.
Defined.

(** C10.  For a batch with at least one file, all of whose files the
    validator accepts: [handleDrop] leaves the message as it was, while
    [handleFilesChange] clears it; both replace the selection by the
    accepted files, which are the whole batch. *)
Theorem drop_keeps_message_input_clears_it
  (batch : list File) (w : World) :
  batch <> [] ->
  invalidFiles (validateFiles batch) = [] ->
  message (state (handleDrop batch w)) = message (state w) /\
  message (state (handleFilesChange batch w)) =
    {| text := ""; type := "" |} /\
  files (state (handleDrop batch w)) = validFiles (validateFiles batch) /\
  files (state (handleFilesChange batch w)) =
    validFiles (validateFiles batch).
Proof.
  intros Hne H.
  rewrite (handleDrop_accepting batch w Hne H).
  rewrite (handleFilesChange_accepting batch w Hne H).
  repeat split.
Qed.

Lemma drop_keeps_message_input_clears_it_witness :
  message (state (handleDrop
                    [ {| name := "a.pdf"; size := 10 |} ]
                    (setMessage {| text := "Upload cancelled";
                                   type := "warning" |} initialWorld))) =
  {| text := "Upload cancelled"; type := "warning" |} /\
  message (state (handleFilesChange
                    [ {| name := "a.pdf"; size := 10 |} ]
                    (setMessage {| text := "Upload cancelled";
                                   type := "warning" |} initialWorld))) =
  {| text := ""; type := "" |}.
Proof.
  assert ([ {| name := "a.pdf"; size := 10 |} ] <> []) as Hne
      by discriminate.
  assert (invalidFiles (validateFiles
            [ {| name := "a.pdf"; size := 10 |} ]) = []) as Hok
      by reflexivity.
  destruct (drop_keeps_message_input_clears_it
              [ {| name := "a.pdf"; size := 10 |} ]
              (setMessage {| text := "Upload cancelled";
                             type := "warning" |} initialWorld)
              Hne Hok) as [Hd [Hc _]].
  split; [exact Hd | exact Hc].
Defined.

(** An empty batch is a batch of accepted files only, and neither handler
    touches the message or the selection then: each returns at its guard
    on the length of the list. *)
Lemma empty_batch_changes_nothing :
  invalidFiles (validateFiles []) = [] /\
  message (state (handleFilesChange []
             (setFiles [ {| name := "a.pdf"; size := 10 |} ]
                (setMessage {| text := "Upload cancelled";
                               type := "warning" |} initialWorld)))) <>
    {| text := ""; type := "" |} /\
  files (state (handleFilesChange []
             (setFiles [ {| name := "a.pdf"; size := 10 |} ]
                (setMessage {| text := "Upload cancelled";
                               type := "warning" |} initialWorld)))) <>
    validFiles (validateFiles []) /\
  files (state (handleDrop []
             (setFiles [ {| name := "a.pdf"; size := 10 |} ]
                (setMessage {| text := "Upload cancelled";
                               type := "warning" |} initialWorld)))) <>
    validFiles (validateFiles []).
Proof. repeat split; discriminate. Qed.

(** C4.  [handleSubmit] on an empty selection returns at its guard: it
    issues no request and sets no timer, leaves the selection, the
    uploading flag and the percentage as they were, and sets the error
    message "Please select files to upload". *)
Theorem submit_empty_selection (resetMode : bool) (w : World) :
  files (state w) = [] ->
  handleSubmit resetMode w =
    (setMessage {| text := "Please select files to upload";
                   type := "error" |} w, None) /\
  requests (fst (handleSubmit resetMode w)) = requests w /\
  inFlight (fst (handleSubmit resetMode w)) = inFlight w /\
  timers (fst (handleSubmit resetMode w)) = timers w /\
  files (state (fst (handleSubmit resetMode w))) = files (state w) /\
  isUploading (state (fst (handleSubmit resetMode w))) =
    isUploading (state w) /\
  uploadProgress (state (fst (handleSubmit resetMode w))) =
    uploadProgress (state w) /\
  message (state (fst (handleSubmit resetMode w))) =
    {| text := "Please select files to upload"; type := "error" |} /\
  toLowerCase (text (message (state (fst (handleSubmit resetMode w))))) =
    "please select files to upload".
Proof.
  intros H. unfold handleSubmit. rewrite H. cbn [length Nat.eqb fst].
  repeat split; assumption.
Qed.

Lemma submit_empty_selection_witness :
  handleSubmit false initialWorld =
    (setMessage {| text := "Please select files to upload";
                   type := "error" |} initialWorld, None) /\
  requests (fst (handleSubmit false initialWorld)) = [].
Proof.
  destruct (submit_empty_selection false initialWorld eq_refl)
    as [H1 [H2 _]].
  split; [exact H1 | exact H2].
Defined.

(** C6.  When the request is fulfilled, the interval of the submission is
    cleared, the percentage is 100, the message is the [message] field of
    the response body with type "success", the selection is empty, and a
    timeout of 2000 ms is pending whose callback sets the percentage to
    0. *)
Theorem success_outcome
  (progressInterval : nat) (response : Response.t) (w : World) :
  let w' := handleSubmit_fulfilled progressInterval response w in
  intervalActive progressInterval w' = false /\
  uploadProgress (state w') = 100%N /\
  message (state w') =
    {| text := Response.message (Response.data response);
       type := "success" |} /\
  files (state w') = [] /\
  isUploading (state w') = false /\
  timers w' =
    (timers (clearInterval progressInterval w) ++
     [Timeout (nextTimer w) 2000])%list /\
  timeoutPending (nextTimer w) w' = true /\
  uploadProgress (state (resetProgress (nextTimer w) w')) = 0%N.
Proof.
  intros w'. subst w'. repeat split.
  - unfold intervalActive.
    change (timers (handleSubmit_fulfilled progressInterval response w))
      with (timers (clearInterval progressInterval w) ++
            [Timeout (nextTimer w) 2000])%list.
    apply intervalActive_cleared.
    intros t [<-|[]]. exact I.
  - unfold timeoutPending.
    change (timers (handleSubmit_fulfilled progressInterval response w))
      with (timers (clearInterval progressInterval w) ++
            [Timeout (nextTimer w) 2000])%list.
    rewrite existsb_app. cbn [existsb]. rewrite Nat.eqb_refl.
    now rewrite orb_true_r.
Qed.

(** C5, as amended.  When the request is rejected the percentage is set
    to 0, the selection is left as it was, and the error text is the
    [detail] field of the failure when it is there and not empty, else
    its [message] field when it is there and not empty, else the fixed
    fallback text; a failure whose body has [detail: "disk full"] shows
    "disk full". *)
Theorem failure_outcome
  (progressInterval : nat) (error : AxiosError.t) (w : World) :
  let w' := handleSubmit_rejected progressInterval error w in
  uploadProgress (state w') = 0%N /\
  files (state w') = files (state w) /\
  isUploading (state w') = false /\
  type (message (state w')) = "error" /\
  (forall d, errorDetail error = Some d -> d <> "" ->
             text (message (state w')) = d) /\
  (forall m, errorDetail error = None \/ errorDetail error = Some "" ->
             errorMessage error = Some m -> m <> "" ->
             text (message (state w')) = m) /\
  (errorDetail error = None \/ errorDetail error = Some "" ->
   errorMessage error = None \/ errorMessage error = Some "" ->
   text (message (state w')) =
     "Error uploading files. Please try a smaller file.") /\
  (errorDetail error = Some "disk full" ->
   text (message (state w')) = "disk full").
Proof.
  intros w'. subst w'.
  cbn [handleSubmit_rejected setIsUploading setMessage setUploadProgress
       settle withState state files message uploadProgress isUploading
       text type].
  unfold errorText.
  repeat split.
  - intros d Hd Hne.
    rewrite (or_else_truthy _ _ d Hd Hne).
    now rewrite (or_else_truthy _ _ d eq_refl Hne).
  - intros m Hd Hm Hne.
    rewrite (or_else_falsy _ _ Hd).
    now rewrite (or_else_truthy _ _ m Hm Hne).
  - intros Hd Hm.
    now rewrite (or_else_falsy _ _ Hd), (or_else_falsy _ _ Hm).
  - intros Hd.
    now rewrite (or_else_truthy _ _ "disk full" Hd) by discriminate.
Qed.

Lemma failure_outcome_witness :
  text (message (state (handleSubmit_rejected 0
    {| AxiosError.response :=
         Some {| AxiosError.data :=
                   Some {| AxiosError.detail := Some "disk full";
                           AxiosError.message := Some "upload failed" |} |} |}
    initialWorld))) = "disk full" /\
  text (message (state (handleSubmit_rejected 0
    {| AxiosError.response :=
         Some {| AxiosError.data :=
                   Some {| AxiosError.detail := None;
                           AxiosError.message := Some "upload failed" |} |} |}
    initialWorld))) = "upload failed" /\
  text (message (state (handleSubmit_rejected 0
    {| AxiosError.response := None |} initialWorld))) =
    "Error uploading files. Please try a smaller file.".
Proof.
  split; [|split].
  - refine (proj1 (proj2 (proj2 (proj2 (proj2
             (failure_outcome 0 _ initialWorld))))) "disk full" _ _).
    + reflexivity.
    + discriminate.
  - refine (proj1 (proj2 (proj2 (proj2 (proj2 (proj2
             (failure_outcome 0 _ initialWorld)))))) "upload failed" _ _ _).
    + left. reflexivity.
    + reflexivity.
    + discriminate.
  - refine (proj1 (proj2 (proj2 (proj2 (proj2 (proj2 (proj2
             (failure_outcome 0 _ initialWorld))))))) _ _).
    + left. reflexivity.
    + left. reflexivity.
Defined.

(** A [detail] field that is there but empty is passed over: [||] takes
    its first operand only when it is truthy. *)
Lemma empty_detail_passed_over :
  errorDetail
    {| AxiosError.response :=
         Some {| AxiosError.data :=
                   Some {| AxiosError.detail := Some "";
                           AxiosError.message := Some "quota exceeded" |} |} |}
  = Some "" /\
  text (message (state (handleSubmit_rejected 0
    {| AxiosError.response :=
         Some {| AxiosError.data :=
                   Some {| AxiosError.detail := Some "";
                           AxiosError.message := Some "quota exceeded" |} |} |}
    initialWorld))) = "quota exceeded" /\
  text (message (state (handleSubmit_rejected 0
    {| AxiosError.response :=
         Some {| AxiosError.data :=
                   Some {| AxiosError.detail := Some "";
                           AxiosError.message := Some "quota exceeded" |} |} |}
    initialWorld))) <> "".
Proof. repeat split. discriminate. Qed.

(** The [catch] block has no [clearInterval]: after a rejection the
    timers are those from before, the interval of the submission among
    them. *)
Lemma failure_leaves_timers
  (progressInterval : nat) (error : AxiosError.t) (w : World) :
  timers (handleSubmit_rejected progressInterval error w) = timers w.
Proof. reflexivity. Qed.

(** C7, as amended.  [cancelUpload] clears the uploading flag, sets the
    percentage to 0 and shows the warning "Upload cancelled"; it leaves
    the selection, the timers and the requests in flight as they were, so
    the request is not aborted.  The cancelled display is not final: when
    a request in flight settles afterwards, its handler runs and
    overwrites the message (and on success sets the percentage to 100
    and empties the selection). *)
Theorem cancel_is_cosmetic (resetMode : bool) (w : World) :
  state (cancelUpload w) =
    {| files := files (state w);
       message := {| text := "Upload cancelled"; type := "warning" |};
       isUploading := false;
       uploadProgress := 0 |} /\
  requests (cancelUpload w) = requests w /\
  inFlight (cancelUpload w) = inFlight w /\
  timers (cancelUpload w) = timers w /\
  (forall id response,
      isInFlight id w = true ->
      state (step resetMode (cancelUpload w) (Fulfilled id response)) =
        {| files := [];
           message := {| text := Response.message (Response.data response);
                         type := "success" |};
           isUploading := false;
           uploadProgress := 100 |}) /\
  (forall id error,
      isInFlight id w = true ->
      state (step resetMode (cancelUpload w) (Rejected id error)) =
        {| files := files (state w);
           message := {| text := errorText error; type := "error" |};
           isUploading := false;
           uploadProgress := 0 |}).
Proof.
  repeat split.
  - intros id response H. cbn [step].
    change (isInFlight id (cancelUpload w)) with (isInFlight id w).
    now rewrite H.
  - intros id error H. cbn [step].
    change (isInFlight id (cancelUpload w)) with (isInFlight id w).
    now rewrite H.
Qed.

Lemma cancel_is_cosmetic_witness :
  state (step false
           (cancelUpload
              (fst (handleSubmit false
                      (setFiles [ {| name := "a.pdf"; size := 10 |} ]
                                initialWorld))))
           (Fulfilled 0
              {| Response.data := {| Response.message := "1 file added" |} |}))
  = {| files := [];
       message := {| text := "1 file added"; type := "success" |};
       isUploading := false;
       uploadProgress := 100 |}.
Proof.
  refine (proj1 (proj2 (proj2 (proj2 (proj2
           (cancel_is_cosmetic false
              (fst (handleSubmit false
                      (setFiles [ {| name := "a.pdf"; size := 10 |} ]
                                initialWorld))))))))
           0 {| Response.data := {| Response.message := "1 file added" |} |}
           _).
  reflexivity.
Defined.

(** After a cancel the display still changes: the request of the
    cancelled submission is in flight, and its fulfilment replaces the
    warning by the success message and empties the selection; a tick of
    the interval, which is still set, moves the percentage. *)
Lemma cancelled_display_overwritten :
  state (run false initialWorld
           [ FilesChange [ {| name := "a.pdf"; size := 10 |} ];
             Submit; Cancel ]) =
    {| files := [ {| name := "a.pdf"; size := 10 |} ];
       message := {| text := "Upload cancelled"; type := "warning" |};
       isUploading := false;
       uploadProgress := 0 |} /\
  isInFlight 0 (run false initialWorld
           [ FilesChange [ {| name := "a.pdf"; size := 10 |} ];
             Submit; Cancel ]) = true /\
  state (run false initialWorld
           [ FilesChange [ {| name := "a.pdf"; size := 10 |} ];
             Submit; Cancel;
             Fulfilled 0
               {| Response.data :=
                    {| Response.message := "1 file added" |} |} ]) =
    {| files := [];
       message := {| text := "1 file added"; type := "success" |};
       isUploading := false;
       uploadProgress := 100 |} /\
  state (run false initialWorld
           [ FilesChange [ {| name := "a.pdf"; size := 10 |} ];
             Submit; Cancel;
             Fulfilled 0
               {| Response.data :=
                    {| Response.message := "1 file added" |} |} ]) <>
  state (run false initialWorld
           [ FilesChange [ {| name := "a.pdf"; size := 10 |} ];
             Submit; Cancel ]) /\
  uploadProgress (state (run false initialWorld
           [ FilesChange [ {| name := "a.pdf"; size := 10 |} ];
             Submit; Cancel; Tick 0 ])) = 5%N.
Proof.
  split; [reflexivity|]. split; [reflexivity|]. split; [reflexivity|].
  split; [|reflexivity]. vm_compute. discriminate.
Qed.

End UploaderSpec.

(** ** The chat flow *)

Module ChatFacts.
Import Js Chat.

Lemma trimStart_white (s : string) :
  allWhiteSpace s = true -> trimStart s = "".
Proof.
  induction s as [|c s IH]; simpl; [reflexivity|].
  destruct (isWhiteSpace c); simpl; [exact IH | discriminate].
Qed.

Lemma trimStart_black (s : string) :
  allWhiteSpace s = false ->
  exists c t, trimStart s = String c t /\ isWhiteSpace c = false.
Proof.
  induction s as [|c s IH]; simpl; [discriminate|].
  destruct (isWhiteSpace c) eqn:E; simpl.
  - exact IH.
  - intros _. now exists c, s.
Qed.

Lemma trimEnd_black (c : ascii) (t : string) :
  isWhiteSpace c = false -> truthy (trimEnd (String c t)) = true.
Proof.
  intros H. simpl. rewrite H. now destruct (trimEnd t).
Qed.

(** [!input.trim()] holds exactly for the texts made of white space
    only, the empty text among them. *)
Lemma trim_truthy (s : string) :
  truthy (trim s) = negb (allWhiteSpace s).
Proof.
  unfold trim. destruct (allWhiteSpace s) eqn:E.
  - now rewrite (trimStart_white s E).
  - destruct (trimStart_black s E) as [c [t [-> H]]].
    now apply trimEnd_black.
Qed.

End ChatFacts.

Module ChatSpec.
Import Js Chat ChatFacts.

(** C8.  With an empty or white-space-only text in the input,
    [sendMessage] changes nothing: no turn is appended and no request is
    issued.  With any other text it appends one user turn carrying the
    text as typed and issues one request with it; when that request is
    fulfilled, one bot turn is appended after the user turn, carrying the
    answer and the sources of the response in their order, or no sources
    when the response has none.  So "find suppliers" answered with the
    sources doc1 and doc2 adds a user turn and a bot turn with both
    labels in order. *)
Theorem send_appends_user_then_bot :
  (forall (now : Date) (w : World),
      allWhiteSpace (input (state w)) = true ->
      sendMessage now w = (w, false)) /\
  (forall (now later : Date) (res : Answer.t) (w : World),
      allWhiteSpace (input (state w)) = false ->
      snd (sendMessage now w) = true /\
      requests (fst (sendMessage now w)) =
        (requests w ++ [input (state w)])%list /\
      messages (state (fst (sendMessage now w))) =
        (messages (state w) ++
         [ {| sender := user; text := input (state w);
              timestamp := now; sources := None |} ])%list /\
      messages (state (sendMessage_fulfilled later res
                         (fst (sendMessage now w)))) =
        (messages (state w) ++
         [ {| sender := user; text := input (state w);
              timestamp := now; sources := None |};
           {| sender := bot; text := Answer.answer (Answer.data res);
              timestamp := later;
              sources :=
                Some (match Answer.sources (Answer.data res) with
                      | Some labels => labels
                      | None => []
                      end) |} ])%list /\
      requests (sendMessage_fulfilled later res
                  (fst (sendMessage now w))) =
        (requests w ++ [input (state w)])%list) /\
  (forall (now later : Date) (answer : string) (w : World),
      messages (state (sendMessage_fulfilled later
                 {| Answer.data :=
                      {| Answer.answer := answer;
                         Answer.sources := Some ["doc1"; "doc2"] |} |}
                 (fst (sendMessage now (setInput "find suppliers" w))))) =
        (messages (state w) ++
         [ {| sender := user; text := "find suppliers";
              timestamp := now; sources := None |};
           {| sender := bot; text := answer;
              timestamp := later;
              sources := Some ["doc1"; "doc2"] |} ])%list) /\
  (forall (now : Date) (w : World),
      sendMessage now (setInput "" w) = (setInput "" w, false) /\
      sendMessage now (setInput "   " w) = (setInput "   " w, false)).
Proof.
  assert (forall (now later : Date) (res : Answer.t) (w : World),
      allWhiteSpace (input (state w)) = false ->
      messages (state (sendMessage_fulfilled later res
                         (fst (sendMessage now w)))) =
        (messages (state w) ++
         [ {| sender := user; text := input (state w);
              timestamp := now; sources := None |};
           {| sender := bot; text := Answer.answer (Answer.data res);
              timestamp := later;
              sources :=
                Some (sourcesOrEmpty (Answer.sources (Answer.data res)))
           |} ])%list) as Hboth.
  { intros now later res w H. unfold sendMessage.
    rewrite trim_truthy, H.
    cbn [negb fst sendMessage_fulfilled setLoading appendMessage
         askQuestion setInput withState state messages].
    now rewrite <- app_assoc. }
  split; [|split; [|split]].
  - intros now w H. unfold sendMessage.
    now rewrite trim_truthy, H.
  - intros now later res w H.
    split; [|split; [|split; [|split]]].
    + unfold sendMessage. now rewrite trim_truthy, H.
    + unfold sendMessage. now rewrite trim_truthy, H.
    + unfold sendMessage. now rewrite trim_truthy, H.
    + exact (Hboth now later res w H).
    + unfold sendMessage. now rewrite trim_truthy, H.
  - intros now later answer w.
    exact (Hboth now later
             {| Answer.data :=
                  {| Answer.answer := answer;
                     Answer.sources := Some ["doc1"; "doc2"] |} |}
             (setInput "find suppliers" w) eq_refl).
  - intros now w. split; reflexivity.
Qed.

Lemma send_appends_user_then_bot_witness :
  sendMessage 5%N (setInput "   " (initialWorld 0%N)) =
    (setInput "   " (initialWorld 0%N), false) /\
  map text
    (messages (state (sendMessage_fulfilled 9%N
       {| Answer.data :=
            {| Answer.answer := "Try Acme."; Answer.sources := None |} |}
       (fst (sendMessage 5%N (setInput "find suppliers" (initialWorld 0%N)))))))
  = [greeting; "find suppliers"; "Try Acme."].
Proof.
  split.
  - exact (proj1 send_appends_user_then_bot 5%N
             (setInput "   " (initialWorld 0%N)) eq_refl).
  - destruct (proj1 (proj2 send_appends_user_then_bot) 5%N 9%N
             {| Answer.data :=
                  {| Answer.answer := "Try Acme.";
                     Answer.sources := None |} |}
             (setInput "find suppliers" (initialWorld 0%N)) eq_refl)
      as [_ [_ [_ [H _]]]].
    rewrite H. reflexivity.
Defined.

End ChatSpec.


(** ** More on the validator *)

Module ValidatorExtra.
Import Js Uploader Spec JsFacts ValidatorFacts.

(** The specification's rule, in the code's terms. *)
Lemma accepted_code (file : File) :
  accepted file =
  includes allowedTypes (extension file) &&
  negb (maxFileSize <? size file)%N.
Proof.
  unfold accepted, verdict. rewrite extension_eq, maxFileSize_eq.
  set (e := match extensionOf (name file) with
            | Some e => e
            | None => toLowerCase (name file)
            end).
  destruct (in_dec string_dec e allowList) as [Hin|Hout].
  - apply allowed_iff in Hin. rewrite Hin.
    now destruct (sizeCeiling <? size file)%N.
  - destruct (includes allowedTypes (String "." e)) eqn:E; [|reflexivity].
    apply allowed_iff in E. contradiction.
Qed.

Lemma rejections_length (file : File) :
  length (rejections file) = if accepted file then 0 else 1.
Proof. unfold rejections, accepted. now destruct (verdict file). Qed.

(** Every file of the input comes out once: accepted, or with one entry
    among the rejected. *)
Theorem validateFiles_partition (fileList : list File) :
  length (validFiles (validateFiles fileList)) +
  length (invalidFiles (validateFiles fileList)) = length fileList.
Proof.
  rewrite validateFiles_spec. cbn [validFiles invalidFiles].
  induction fileList as [|file l IH]; [reflexivity|].
  cbn [filter flat_map]. rewrite length_app, rejections_length.
  destruct (accepted file); cbn [length]; lia.
Qed.

(** The accepted files are exactly the files of the input whose extension
    is in [allowedTypes] and whose size is at most [maxFileSize]. *)
Theorem validFiles_characterised (fileList : list File) (file : File) :
  In file (validFiles (validateFiles fileList)) <->
  In file fileList /\
  includes allowedTypes (extension file) = true /\
  (size file <= maxFileSize)%N.
Proof.
  rewrite validateFiles_spec. cbn [validFiles].
  rewrite filter_In, accepted_code, andb_true_iff, negb_true_iff, N.ltb_ge.
  tauto.
Qed.

(** Validating a list made of two parts is validating the parts: nothing
    in the outcome for a file depends on the files around it. *)
Theorem validateFiles_app (first second : list File) :
  validateFiles (first ++ second) =
  {| validFiles :=
       validFiles (validateFiles first) ++ validFiles (validateFiles second);
     invalidFiles :=
       invalidFiles (validateFiles first) ++
       invalidFiles (validateFiles second) |}.
Proof.
  rewrite !validateFiles_spec. cbn [validFiles invalidFiles].
  now rewrite filter_app, flat_map_app.
Qed.

Lemma filter_accepted_twice (l : list File) :
  filter accepted (filter accepted l) = filter accepted l.
Proof.
  induction l as [|file l IH]; [reflexivity|]. cbn [filter].
  destruct (accepted file) eqn:E; [|exact IH].
  cbn [filter]. now rewrite E, IH.
Qed.

Lemma rejections_of_accepted (l : list File) :
  flat_map rejections (filter accepted l) = [].
Proof.
  induction l as [|file l IH]; [reflexivity|]. cbn [filter].
  destruct (accepted file) eqn:E; [|exact IH].
  cbn [flat_map]. rewrite IH. unfold rejections.
  unfold accepted in E. now destruct (verdict file).
Qed.

(** Validating the accepted files again accepts all of them, in the same
    order, and rejects none. *)
Theorem validateFiles_idempotent (fileList : list File) :
  validateFiles (validFiles (validateFiles fileList)) =
  {| validFiles := validFiles (validateFiles fileList);
     invalidFiles := [] |}.
Proof.
  rewrite !validateFiles_spec. cbn [validFiles].
  now rewrite filter_accepted_twice, rejections_of_accepted.
Qed.

(** A name that ends in a dot has the empty extension, and the empty name
    has the extension ".": both are rejected with "Invalid file type",
    whatever the size. *)
Theorem trailing_dot_rejected
  (before after : list File) (stem : string) (n : N) :
  validateFiles (before ++ {| name := stem ++ "."; size := n |} :: after) =
  {| validFiles :=
       validFiles (validateFiles before) ++ validFiles (validateFiles after);
     invalidFiles :=
       invalidFiles (validateFiles before) ++
       ((stem ++ ".") ++ " - Invalid file type") ::
       invalidFiles (validateFiles after) |} /\
  validateFiles (before ++ {| name := ""; size := n |} :: after) =
  {| validFiles :=
       validFiles (validateFiles before) ++ validFiles (validateFiles after);
     invalidFiles :=
       invalidFiles (validateFiles before) ++
       " - Invalid file type" :: invalidFiles (validateFiles after) |}.
Proof.
  split; rewrite validateFiles_middle; unfold accepted, rejections.
  - rewrite (verdict_dotted _ "").
    + reflexivity.
    + now apply (extensionOf_suffix stem "").
  - reflexivity.
Qed.

(** Lower-casing and the dot. *)
Lemma lowerUnit_dot (c : ascii) :
  Ascii.eqb (lowerUnit c) "." = Ascii.eqb c ".".
Proof. destruct c as [[] [] [] [] [] [] [] []]; reflexivity. Qed.

Lemma lowerUnit_idempotent (c : ascii) :
  lowerUnit (lowerUnit c) = lowerUnit c.
Proof. destruct c as [[] [] [] [] [] [] [] []]; reflexivity. Qed.

Lemma toLowerCase_idempotent (s : string) :
  toLowerCase (toLowerCase s) = toLowerCase s.
Proof.
  induction s as [|c s IH]; [reflexivity|]. cbn [toLowerCase].
  now rewrite lowerUnit_idempotent, IH.
Qed.

Lemma split_toLowerCase (s : string) :
  split "." (toLowerCase s) = map toLowerCase (split "." s).
Proof.
  induction s as [|c s IH]; [reflexivity|]. cbn [toLowerCase split].
  rewrite lowerUnit_dot, IH.
  destruct (Ascii.eqb c "."); [reflexivity|].
  pose proof (split_not_nil "." s) as Hne.
  destruct (split "." s) as [|seg rest]; [now elim Hne|reflexivity].
Qed.

Lemma pop_map_toLowerCase (a : list string) :
  a <> [] -> pop (map toLowerCase a) = toLowerCase (pop a).
Proof.
  unfold pop. induction a as [|x a IH]; [now intros H; elim H|].
  intros _. destruct a as [|y a]; [reflexivity|].
  change (last (map toLowerCase (x :: y :: a)) "")
    with (last (map toLowerCase (y :: a)) "").
  change (last (x :: y :: a) "") with (last (y :: a) "").
  apply IH. discriminate.
Qed.

Lemma extension_lowered (n : string) (sz sz' : N) :
  extension {| name := toLowerCase n; size := sz |} =
  extension {| name := n; size := sz' |}.
Proof.
  unfold extension. cbn [name].
  rewrite split_toLowerCase, pop_map_toLowerCase by apply split_not_nil.
  now rewrite toLowerCase_idempotent.
Qed.

(** The validator does not look at the letter case of a name: lower-casing
    the names of the input lower-cases the names of the accepted files and
    changes nothing else about which files are accepted. *)
Theorem validation_ignores_case (fileList : list File) :
  validFiles
    (validateFiles
       (map (fun file => {| name := toLowerCase (name file);
                            size := size file |}) fileList)) =
  map (fun file => {| name := toLowerCase (name file); size := size file |})
      (validFiles (validateFiles fileList)).
Proof.
  rewrite !validateFiles_spec. cbn [validFiles].
  induction fileList as [|file l IH]; [reflexivity|].
  cbn [map filter]. rewrite IH.
  assert (accepted {| name := toLowerCase (name file); size := size file |}
          = accepted file) as ->.
  { rewrite !accepted_code. cbn [size].
    destruct file as [n sz]. cbn [name size].
    now rewrite (extension_lowered n sz sz). }
  now destruct (accepted file).
Qed.

End ValidatorExtra.

(** ** More on the upload flow *)

Module UploaderExtra.
Import Js Uploader UploaderView Invariants Spec.
Import JsFacts ValidatorFacts ValidatorExtra UploaderFacts.

(** [handleDrop] and [handleFilesChange] differ in the message only, and
    only for a batch with a file of which none is rejected: on an empty
    batch and on a batch with a rejected file they do the same. *)
Theorem drop_and_input_agree (batch : list File) (w : World) :
  (forall m, setMessage m (handleDrop batch w) =
             setMessage m (handleFilesChange batch w)) /\
  (batch = [] \/ invalidFiles (validateFiles batch) <> [] ->
   handleDrop batch w = handleFilesChange batch w).
Proof.
  split.
  - intros m. unfold handleDrop, handleFilesChange.
    destruct batch as [|file l]; [reflexivity|].
    cbn [length Nat.eqb negb].
    now destruct (0 <? length (invalidFiles (validateFiles (file :: l))))%nat.
  - intros [->|H]; [reflexivity|].
    now rewrite handleDrop_rejecting, handleFilesChange_rejecting.
Qed.

Lemma drop_and_input_agree_witness :
  handleDrop [ {| name := "a.exe"; size := 1 |} ] initialWorld =
  handleFilesChange [ {| name := "a.exe"; size := 1 |} ] initialWorld.
Proof.
  apply (proj2 (drop_and_input_agree
                  [ {| name := "a.exe"; size := 1 |} ] initialWorld)).
  right. vm_compute. discriminate.
Defined.

Lemma filter_index_ne_split {A} (index : nat) (a : list A) :
  filter_index_ne index a = (firstn index a ++ skipn (S index) a)%list.
Proof.
  revert index. induction a as [|x a IH]; intros [|k]; try reflexivity.
  cbn [filter_index_ne firstn skipn app]. now rewrite IH.
Qed.

Lemma setFiles_same (w : World) : setFiles (files (state w)) w = w.
Proof. now destruct w as [[fs m u p] fi t n r i]. Qed.

(** [removeFile] takes out the entry at the index and keeps the others in
    order; an index past the end changes nothing. *)
Theorem removeFile_in_and_out_of_range (index : nat) (w : World) :
  files (state (removeFile index w)) =
    (firstn index (files (state w)) ++
     skipn (S index) (files (state w)))%list /\
  (index < length (files (state w)) ->
   S (length (files (state (removeFile index w)))) =
   length (files (state w))) /\
  (length (files (state w)) <= index -> removeFile index w = w).
Proof.
  assert (files (state (removeFile index w)) =
          (firstn index (files (state w)) ++
           skipn (S index) (files (state w)))%list) as Hfiles.
  { unfold removeFile. cbn [setFiles withState state files].
    apply filter_index_ne_split. }
  split; [exact Hfiles|]. split.
  - intros H. rewrite Hfiles, length_app, length_firstn, length_skipn.
    remember (length (files (state w))) as n eqn:E. clear E. lia.
  - intros H. unfold removeFile. rewrite filter_index_ne_split.
    rewrite firstn_all2 by assumption.
    rewrite skipn_all2 by (apply Nat.le_trans with index; auto).
    rewrite app_nil_r. apply setFiles_same.
Qed.

Lemma removeFile_in_and_out_of_range_witness :
  S (length (files (state (removeFile 0
       (setFiles [ {| name := "a.pdf"; size := 1 |};
                   {| name := "b.txt"; size := 2 |} ] initialWorld))))) = 2 /\
  removeFile 2
    (setFiles [ {| name := "a.pdf"; size := 1 |};
                {| name := "b.txt"; size := 2 |} ] initialWorld) =
  setFiles [ {| name := "a.pdf"; size := 1 |};
             {| name := "b.txt"; size := 2 |} ] initialWorld.
Proof.
  split.
  - apply (proj1 (proj2 (removeFile_in_and_out_of_range 0
       (setFiles [ {| name := "a.pdf"; size := 1 |};
                   {| name := "b.txt"; size := 2 |} ] initialWorld)))).
    simpl. lia.
  - apply (proj2 (proj2 (removeFile_in_and_out_of_range 2
       (setFiles [ {| name := "a.pdf"; size := 1 |};
                   {| name := "b.txt"; size := 2 |} ] initialWorld)))).
    simpl. lia.
Defined.

(** *** Invariants over every sequence of events *)

Lemma run_invariant (resetMode : bool) (P : World -> Prop) :
  (forall w e, P w -> P (step resetMode w e)) ->
  forall es w, P w -> P (run resetMode w es).
Proof.
  intros Hstep es. induction es as [|e es IH]; intros w Hw; [exact Hw|].
  apply IH, Hstep, Hw.
Qed.

Lemma validFiles_fileValid (l : list File) (file : File) :
  In file (validFiles (validateFiles l)) -> fileValid file.
Proof.
  rewrite validateFiles_spec. cbn [validFiles].
  rewrite filter_In, accepted_code, andb_true_iff, negb_true_iff, N.ltb_ge.
  unfold fileValid. tauto.
Qed.

Lemma In_filter_index_ne {A} (index : nat) (a : list A) (x : A) :
  In x (filter_index_ne index a) -> In x a.
Proof.
  revert index. induction a as [|y a IH]; intros [|k] H;
    try contradiction.
  - now right.
  - destruct H as [H|H]; [now left | right; exact (IH k H)].
Qed.

(** The handlers that change the selection: what they leave alone. *)
Lemma handleFilesChange_frame (l : list File) (w : World) :
  isUploading (state (handleFilesChange l w)) = isUploading (state w) /\
  uploadProgress (state (handleFilesChange l w)) = uploadProgress (state w) /\
  timers (handleFilesChange l w) = timers w /\
  nextTimer (handleFilesChange l w) = nextTimer w /\
  requests (handleFilesChange l w) = requests w /\
  inFlight (handleFilesChange l w) = inFlight w.
Proof.
  unfold handleFilesChange. destruct (length l =? 0)%nat; [tauto|].
  destruct (0 <? length (invalidFiles (validateFiles l)))%nat;
    repeat split.
Qed.

Lemma handleDrop_frame (l : list File) (w : World) :
  isUploading (state (handleDrop l w)) = isUploading (state w) /\
  uploadProgress (state (handleDrop l w)) = uploadProgress (state w) /\
  timers (handleDrop l w) = timers w /\
  nextTimer (handleDrop l w) = nextTimer w /\
  requests (handleDrop l w) = requests w /\
  inFlight (handleDrop l w) = inFlight w.
Proof.
  unfold handleDrop. destruct (length l =? 0)%nat; cbn [negb]; [tauto|].
  destruct (0 <? length (invalidFiles (validateFiles l)))%nat;
    repeat split.
Qed.

Lemma handleFilesChange_files (l : list File) (w : World) (file : File) :
  In file (files (state (handleFilesChange l w))) ->
  In file (files (state w)) \/ fileValid file.
Proof.
  unfold handleFilesChange. destruct (length l =? 0)%nat; [now left|].
  destruct (0 <? length (invalidFiles (validateFiles l)))%nat;
    cbn [setFiles setMessage withState state files];
    intros H; right; exact (validFiles_fileValid l file H).
Qed.

Lemma handleDrop_files (l : list File) (w : World) (file : File) :
  In file (files (state (handleDrop l w))) ->
  In file (files (state w)) \/ fileValid file.
Proof.
  unfold handleDrop. destruct (length l =? 0)%nat; cbn [negb]; [now left|].
  destruct (0 <? length (invalidFiles (validateFiles l)))%nat;
    cbn [setFiles setMessage withState state files];
    intros H; right; exact (validFiles_fileValid l file H).
Qed.

Lemma handleSubmit_cases (resetMode : bool) (w : World) :
  (files (state w) = [] /\
   handleSubmit resetMode w =
     (setMessage {| text := "Please select files to upload";
                    type := "error" |} w, None)) \/
  (files (state w) <> [] /\
   handleSubmit resetMode w =
     (issue (nextTimer w)
        {| endpoint := if resetMode then resetFiles else uploadFiles;
           formData := map (fun file => ("files", file)) (files (state w)) |}
        (setInterval 300
           (setMessage noMessage
              (setUploadProgress 0 (setIsUploading true w)))),
      Some (nextTimer w))).
Proof.
  unfold handleSubmit. destruct (files (state w)) as [|file l] eqn:E.
  - left. now split.
  - right. split; [discriminate|]. reflexivity.
Qed.

Lemma step_selectionValid (resetMode : bool) (w : World) (e : Event) :
  selectionValid w -> selectionValid (step resetMode w e).
Proof.
  intros [Hf Hr]. destruct e as [l|l|i| | | |id|id|id r|id err]; cbn [step].
  - split.
    + intros file H. apply handleFilesChange_files in H.
      destruct H as [H|H]; [now apply Hf | exact H].
    + destruct (handleFilesChange_frame l w) as [_ [_ [_ [_ [-> _]]]]].
      exact Hr.
  - split.
    + intros file H. apply handleDrop_files in H.
      destruct H as [H|H]; [now apply Hf | exact H].
    + destruct (handleDrop_frame l w) as [_ [_ [_ [_ [-> _]]]]].
      exact Hr.
  - split; [|exact Hr].
    intros file H. apply Hf.
    exact (In_filter_index_ne i (files (state w)) file H).
  - split; [|exact Hr]. intros file [].
  - destruct (handleSubmit_cases resetMode w) as [[_ ->]|[Hne ->]];
      cbn [fst]; [now split|].
    split; [exact Hf|].
    intros id r H.
    change (In (id, r)
              (requests w ++
               [(nextTimer w,
                 {| endpoint := if resetMode then resetFiles else uploadFiles;
                    formData := map (fun file => ("files", file))
                                    (files (state w)) |})])) in H.
    apply in_app_or in H. destruct H as [H|[H|[]]]; [now apply (Hr id)|].
    injection H as _ <-. split; cbn [formData].
    + destruct (files (state w)); [now elim Hne | discriminate].
    + intros field file Hin. apply in_map_iff in Hin.
      destruct Hin as [f [[= <- <-] Hin]]. split; [reflexivity|].
      now apply Hf.
  - now split.
  - destruct (intervalActive id w); [|now split].
    unfold progressTick.
    destruct (80 <=? uploadProgress (state w))%N; now split.
  - destruct (timeoutPending id w); now split.
  - destruct (isInFlight id w); [|now split].
    split; [intros file []|exact Hr].
  - destruct (isInFlight id w); now split.
Qed.

(** Whatever happens to the component, its selection holds only files the
    validator accepts, and every request it has issued carries at least
    one file, each under the field "files" and each accepted. *)
Theorem only_valid_files_are_selected_and_sent
  (resetMode : bool) (es : list Event) :
  selectionValid (run resetMode initialWorld es).
Proof.
  apply run_invariant.
  - intros w e. apply step_selectionValid.
  - split; [intros file [] | intros id r []].
Qed.

Lemma step_onGrid (resetMode : bool) (w : World) (e : Event) :
  onGrid w -> onGrid (step resetMode w e).
Proof.
  assert (forall w', uploadProgress (state w') = uploadProgress (state w) ->
                     isUploading (state w') = isUploading (state w) ->
                     onGrid w -> onGrid w') as Hsame.
  { intros w' E1 E2 H. unfold onGrid. now rewrite E1, E2. }
  assert (forall w' j, (j <= 16)%N -> uploadProgress (state w') = (5 * j)%N ->
                       onGrid w') as Hset.
  { intros w' j Hj E. left. now exists j. }
  intros H. destruct e as [l|l|i| | | |id|id|id r|id err]; cbn [step].
  - apply Hsame; [| |exact H]; apply handleFilesChange_frame.
  - apply Hsame; [| |exact H]; apply handleDrop_frame.
  - now apply Hsame.
  - now apply Hsame.
  - destruct (handleSubmit_cases resetMode w) as [[_ ->]|[_ ->]]; cbn [fst].
    + now apply Hsame.
    + now apply (Hset _ 0%N).
  - now apply (Hset _ 0%N).
  - destruct (intervalActive id w); [|exact H].
    unfold progressTick.
    destruct (80 <=? uploadProgress (state w))%N eqn:E.
    + now apply (Hset _ 16%N).
    + apply N.leb_gt in E. destruct H as [[j [Hj Hp]]|[Hp _]].
      * apply (Hset _ (j + 1)%N);
          cbn [setUploadProgress withState state uploadProgress];
          rewrite Hp in *; clear - E Hj; lia.
      * rewrite Hp in E. discriminate.
  - destruct (timeoutPending id w); [|exact H]. now apply (Hset _ 0%N).
  - destruct (isInFlight id w); [|exact H]. right. now split.
  - destruct (isInFlight id w); [|exact H]. now apply (Hset _ 0%N).
Qed.

(** Whatever happens to the component, the percentage is a multiple of 5
    up to 80, or it is 100 and the component is not uploading; so while
    the component is uploading the percentage is below 100 and the cancel
    button is shown. *)
Theorem percentage_stays_on_grid (resetMode : bool) (es : list Event) :
  onGrid (run resetMode initialWorld es) /\
  cancelShown (run resetMode initialWorld es) =
    isUploading (state (run resetMode initialWorld es)).
Proof.
  assert (onGrid (run resetMode initialWorld es)) as H.
  { apply run_invariant.
    - intros w e. apply step_onGrid.
    - left. now exists 0%N. }
  split; [exact H|]. unfold cancelShown.
  destruct H as [[j [Hj ->]]|[_ ->]]; [|reflexivity].
  assert ((5 * j <? 100)%N = true) as -> by (apply N.ltb_lt; lia).
  apply andb_true_r.
Qed.





(** *** The progress simulation *)

Lemma ticks_when_inactive (resetMode : bool) (id k : nat) (w : World) :
  intervalActive id w = false ->
  run resetMode w (repeat (Tick id) k) = w.
Proof.
  intros H. induction k as [|k IH]; [reflexivity|].
  cbn [repeat run fold_left step]. rewrite H. exact IH.
Qed.

Lemma intervalActive_after_clear (id : nat) (w : World) :
  intervalActive id (clearInterval id w) = false.
Proof.
  pose proof (intervalActive_cleared id w [] (fun t (H : In t []) =>
                match H with end)) as H.
  now rewrite app_nil_r in H.
Qed.

Lemma ticks_from (resetMode : bool) (id k : nat) :
  forall (j : nat) (w : World),
    j <= 16 ->
    uploadProgress (state w) = (5 * N.of_nat j)%N ->
    intervalActive id w = true ->
    uploadProgress (state (run resetMode w (repeat (Tick id) k))) =
      N.min (5 * N.of_nat (j + k)) 80 /\
    intervalActive id (run resetMode w (repeat (Tick id) k)) =
      (j + k <=? 16)%nat.
Proof.
  induction k as [|k IH]; intros j w Hj Hp Ha.
  - cbn [repeat run fold_left]. rewrite Nat.add_0_r, Hp, Ha. split.
    + symmetry. apply N.min_l. clear - Hj. lia.
    + symmetry. now apply Nat.leb_le.
  - cbn [repeat run fold_left step]. rewrite Ha. unfold progressTick.
    destruct (80 <=? uploadProgress (state w))%N eqn:E.
    + rewrite Hp in E. apply N.leb_le in E.
      assert (j = 16) as -> by (clear - E Hj; lia).
      fold (run resetMode
              (setUploadProgress 80 (clearInterval id w))
              (repeat (Tick id) k)).
      rewrite ticks_when_inactive by apply intervalActive_after_clear.
      split.
      * cbn [setUploadProgress withState state uploadProgress].
        symmetry. apply N.min_r. clear. lia.
      * change (intervalActive id (setUploadProgress 80 (clearInterval id w)))
          with (intervalActive id (clearInterval id w)).
        rewrite (intervalActive_after_clear id w). symmetry.
        apply Nat.leb_gt. clear. lia.
    + rewrite Hp in E. apply N.leb_gt in E.
      fold (run resetMode
              (setUploadProgress (uploadProgress (state w) + 5) w)
              (repeat (Tick id) k)).
      replace (j + S k) with (S j + k) by (clear; lia).
      apply IH.
      * clear - E. lia.
      * cbn [setUploadProgress withState state uploadProgress].
        rewrite Hp. clear. lia.
      * exact Ha.
Qed.

(** After [k] ticks of its interval, a percentage that started at 0 is
    [5 k], capped at 80; the interval is still set after 16 ticks and
    clears itself on the 17th, after which ticks do nothing. *)
Theorem progress_simulation
  (resetMode : bool) (id k : nat) (w : World) :
  uploadProgress (state w) = 0%N ->
  intervalActive id w = true ->
  uploadProgress (state (run resetMode w (repeat (Tick id) k))) =
    N.min (5 * N.of_nat k) 80 /\
  intervalActive id (run resetMode w (repeat (Tick id) k)) =
    (k <=? 16)%nat.
Proof.
  intros Hp Ha.
  apply (ticks_from resetMode id k 0 w);
    [apply Nat.le_0_l | now rewrite Hp | exact Ha].
Qed.

Lemma progress_simulation_witness :
  uploadProgress (state (run false
    (fst (handleSubmit false
            (setFiles [ {| name := "a.pdf"; size := 1 |} ] initialWorld)))
    (repeat (Tick 0) 20))) = 80%N.
Proof.
  apply (proj1 (progress_simulation false 0 20
    (fst (handleSubmit false
            (setFiles [ {| name := "a.pdf"; size := 1 |} ] initialWorld)))
    eq_refl eq_refl)).
Defined.

(** A rejected submission does not stop its simulation: the interval set
    by [handleSubmit] is still active after the [catch] block, and its
    next tick moves the percentage from 0 to 5 although nothing is being
    uploaded. *)
Theorem failed_submission_keeps_ticking
  (resetMode : bool) (error : AxiosError.t) (w : World) :
  files (state w) <> [] ->
  snd (handleSubmit resetMode w) = Some (nextTimer w) /\
  isUploading (state (handleSubmit_rejected (nextTimer w) error
                        (fst (handleSubmit resetMode w)))) = false /\
  intervalActive (nextTimer w)
    (handleSubmit_rejected (nextTimer w) error
       (fst (handleSubmit resetMode w))) = true /\
  uploadProgress
    (state (step resetMode
              (handleSubmit_rejected (nextTimer w) error
                 (fst (handleSubmit resetMode w)))
              (Tick (nextTimer w)))) = 5%N.
Proof.
  intros Hne.
  destruct (handleSubmit_cases resetMode w) as [[E _]|[_ ->]];
    [contradiction|]. cbn [fst snd].
  assert (intervalActive (nextTimer w)
            (handleSubmit_rejected (nextTimer w) error
               (issue (nextTimer w)
                  {| endpoint := if resetMode then resetFiles else uploadFiles;
                     formData := map (fun file => ("files", file))
                                     (files (state w)) |}
                  (setInterval 300
                     (setMessage noMessage
                        (setUploadProgress 0 (setIsUploading true w))))))
          = true) as Ha.
  { unfold intervalActive.
    change (existsb
              (fun t => match t with
                        | Interval i _ => (i =? nextTimer w)%nat
                        | Timeout _ _ => false
                        end)
              (timers w ++ [Interval (nextTimer w) 300]) = true).
    rewrite existsb_app. cbn [existsb]. rewrite Nat.eqb_refl.
    now rewrite orb_true_r. }
  split; [reflexivity|]. split; [reflexivity|]. split; [exact Ha|].
  cbn [step]. rewrite Ha. reflexivity.
Qed.

Lemma failed_submission_keeps_ticking_witness :
  uploadProgress
    (state (run false initialWorld
              [ FilesChange [ {| name := "a.pdf"; size := 1 |} ];
                Submit;
                Rejected 0 {| AxiosError.response := None |};
                Tick 0 ])) = 5%N.
Proof.
  refine (proj2 (proj2 (proj2
    (failed_submission_keeps_ticking false {| AxiosError.response := None |}
       (setFiles [ {| name := "a.pdf"; size := 1 |} ] initialWorld) _)))).
  discriminate.
Defined.

(** *** The component driven through its view *)

Lemma viewStep_oneAtATime (resetMode : bool) (w : World) (e : Event) :
  e <> Cancel -> oneAtATime w -> oneAtATime (viewStep resetMode w e).
Proof.
  intros Hc H. unfold viewStep.
  destruct (enabled w e) eqn:En; [|exact H].
  destruct e as [l|l|i| | | |id|id|id r|id err]; cbn [step].
  - destruct (handleFilesChange_frame l w) as [E1 [_ [_ [_ [_ E2]]]]].
    unfold oneAtATime. now rewrite E1, E2.
  - destruct (handleDrop_frame l w) as [E1 [_ [_ [_ [_ E2]]]]].
    unfold oneAtATime. now rewrite E1, E2.
  - exact H.
  - exact H.
  - cbn [enabled] in En. unfold submitDisabled in En.
    apply negb_true_iff, orb_false_iff in En. destruct En as [Hu Hl].
    destruct H as [[Hu' _]|[_ Hi]]; [congruence|].
    destruct (handleSubmit_cases resetMode w) as [[_ ->]|[_ ->]]; cbn [fst].
    + right. now split.
    + left. split; [reflexivity|]. exists (nextTimer w).
      change ((inFlight w ++ [nextTimer w])%list = [nextTimer w]).
      now rewrite Hi.
  - now elim Hc.
  - destruct (intervalActive id w); [|exact H].
    unfold progressTick.
    destruct (80 <=? uploadProgress (state w))%N; exact H.
  - destruct (timeoutPending id w); exact H.
  - cbn [enabled] in En. rewrite En.
    right. split; [reflexivity|].
    change (filter (fun k => negb (k =? id)%nat) (inFlight w) = []).
    unfold isInFlight in En.
    destruct H as [[_ [id' Hi]]|[_ Hi]]; rewrite Hi in *; [|discriminate].
    cbn [existsb] in En. rewrite orb_false_r in En.
    apply Nat.eqb_eq in En. subst id'. cbn [filter].
    now rewrite Nat.eqb_refl.
  - cbn [enabled] in En. rewrite En.
    right. split; [reflexivity|].
    change (filter (fun k => negb (k =? id)%nat) (inFlight w) = []).
    unfold isInFlight in En.
    destruct H as [[_ [id' Hi]]|[_ Hi]]; rewrite Hi in *; [|discriminate].
    cbn [existsb] in En. rewrite orb_false_r in En.
    apply Nat.eqb_eq in En. subst id'. cbn [filter].
    now rewrite Nat.eqb_refl.
Qed.

(** As long as the user does not cancel, the guards of the view keep the
    submissions apart: in every state reached through enabled controls the
    component is uploading with exactly one request in flight, or idle
    with none. *)
Theorem one_request_at_a_time (resetMode : bool) (es : list Event) :
  ~ In Cancel es ->
  oneAtATime (viewRun resetMode initialWorld es) /\
  length (inFlight (viewRun resetMode initialWorld es)) <= 1.
Proof.
  intros Hc.
  assert (forall es w, ~ In Cancel es -> oneAtATime w ->
                       oneAtATime (viewRun resetMode w es)) as Hrun.
  { clear. intros es. induction es as [|e es IH]; intros w Hc H; [exact H|].
    cbn [viewRun fold_left]. apply IH.
    - intros Hin. apply Hc. now right.
    - apply viewStep_oneAtATime; [|exact H].
      intros ->. apply Hc. now left. }
  assert (oneAtATime (viewRun resetMode initialWorld es)) as H.
  { apply Hrun; [exact Hc|]. right. now split. }
  split; [exact H|].
  destruct H as [[_ [id ->]]|[_ ->]]; cbn [length]; auto.
Qed.

Lemma one_request_at_a_time_witness :
  length (inFlight (viewRun false initialWorld
    [ FilesChange [ {| name := "a.pdf"; size := 1 |} ];
      Submit; Submit; Drop [ {| name := "b.txt"; size := 1 |} ];
      Tick 0; Submit ])) <= 1.
Proof.
  refine (proj2 (one_request_at_a_time false
    [ FilesChange [ {| name := "a.pdf"; size := 1 |} ];
      Submit; Submit; Drop [ {| name := "b.txt"; size := 1 |} ];
      Tick 0; Submit ] _)).
  simpl. intuition discriminate.
Defined.

(** A cancel puts the submit button back while the cancelled request is
    still in flight: after submit and cancel the button is enabled, and a
    second submit goes through, leaving two requests in flight at once. *)
Theorem cancel_lets_submissions_overlap (resetMode : bool) (w : World) :
  submitDisabled w = false ->
  cancelShown (viewStep resetMode w Submit) = true /\
  submitDisabled (viewRun resetMode w [Submit; Cancel]) = false /\
  inFlight (viewRun resetMode w [Submit; Cancel; Submit]) =
    (inFlight w ++ [nextTimer w; S (nextTimer w)])%list.
Proof.
  intros H. pose proof H as H'.
  unfold submitDisabled in H'. apply orb_false_iff in H'.
  destruct H' as [Hu Hl].
  assert (files (state w) <> []) as Hne.
  { intros E. rewrite E in Hl. discriminate. }
  assert (viewStep resetMode w Submit =
          issue (nextTimer w)
            {| endpoint := if resetMode then resetFiles else uploadFiles;
               formData := map (fun file => ("files", file))
                               (files (state w)) |}
            (setInterval 300
               (setMessage noMessage
                  (setUploadProgress 0 (setIsUploading true w))))) as E1.
  { unfold viewStep. cbn [enabled]. rewrite H. cbn [negb step].
    destruct (handleSubmit_cases resetMode w) as [[E _]|[_ ->]];
      [contradiction | reflexivity]. }
  assert (viewRun resetMode w [Submit; Cancel] =
          cancelUpload (viewStep resetMode w Submit)) as E2.
  { cbn [viewRun fold_left]. rewrite E1. reflexivity. }
  split; [now rewrite E1|]. split.
  - rewrite E2, E1. unfold submitDisabled.
    cbn [cancelUpload issue setInterval addTimer setMessage setUploadProgress
         setIsUploading withState state isUploading files orb].
    exact Hl.
  - change (viewRun resetMode w [Submit; Cancel; Submit])
      with (viewStep resetMode (viewRun resetMode w [Submit; Cancel]) Submit).
    rewrite E2, E1.
    set (w2 := cancelUpload _).
    assert (files (state w2) = files (state w)) as Hf by reflexivity.
    unfold viewStep. cbn [enabled]. unfold submitDisabled.
    rewrite Hf, Hl.
    change (isUploading (state w2)) with false. cbn [orb negb step].
    destruct (handleSubmit_cases resetMode w2) as [[E _]|[_ ->]].
    + rewrite Hf in E. contradiction.
    + cbn [fst].
      change (((inFlight w ++ [nextTimer w]) ++ [S (nextTimer w)])%list =
              (inFlight w ++ [nextTimer w; S (nextTimer w)])%list).
      now rewrite <- app_assoc.
Qed.

Lemma cancel_lets_submissions_overlap_witness :
  inFlight (viewRun false
              (setFiles [ {| name := "a.pdf"; size := 1 |} ] initialWorld)
              [Submit; Cancel; Submit]) = [0; 1].
Proof.
  apply (proj2 (proj2 (cancel_lets_submissions_overlap false
           (setFiles [ {| name := "a.pdf"; size := 1 |} ] initialWorld)
           eq_refl))).
Defined.

(** *** Icons *)

Lemma allowList_lower (k : string) :
  In k allowList -> toLowerCase k = k.
Proof.
  intros H. repeat (destruct H as [<-|H]; [reflexivity|]). contradiction.
Qed.

(** A selected file gets its own icon only when its extension is written
    in lower case: the validator lower-cases the extension, the icon
    lookup does not, so an accepted file shows the default icon exactly
    when its extension has a capital letter. *)
Theorem icon_lookup_is_case_sensitive (file : File) :
  includes allowedTypes (extension file) = true ->
  (fileIcon file = defaultIcon <->
   toLowerCase (pop (split "." (name file))) <> pop (split "." (name file))).
Proof.
  unfold extension, fileIcon.
  set (k := pop (split "." (name file))).
  change ("." ++ toLowerCase k) with (String "." (toLowerCase k)).
  rewrite allowed_iff. intros Hin. split.
  - intros Hicon Hk. rewrite Hk in Hin.
    repeat (destruct Hin as [<-|Hin]; [discriminate Hicon|]).
    contradiction.
  - intros Hk.
    assert (~ In k allowList) as Hout.
    { intros H. apply Hk. now apply allowList_lower. }
    assert (lookup k fileIcons = None) as ->; [|reflexivity].
    unfold fileIcons. cbn [lookup].
    repeat match goal with
           | |- context [String.eqb k ?s] =>
               destruct (String.eqb_spec k s) as [->|_];
               [exfalso; apply Hout; cbn; tauto|]
           end.
    reflexivity.
Qed.

Lemma icon_lookup_is_case_sensitive_witness :
  fileIcon {| name := "REPORT.PDF"; size := 1 |} = defaultIcon /\
  fileIcon {| name := "report.pdf"; size := 1 |} <> defaultIcon.
Proof.
  split.
  - apply (proj2 (icon_lookup_is_case_sensitive
                    {| name := "REPORT.PDF"; size := 1 |} eq_refl)).
    discriminate.
  - intros H.
    apply (proj1 (icon_lookup_is_case_sensitive
                    {| name := "report.pdf"; size := 1 |} eq_refl)) in H.
    now apply H.
Defined.

(** *** A whole submission *)

Lemma filter_keeps_all {A} (p : A -> bool) (l : list A) :
  (forall x, In x l -> p x = true) -> filter p l = l.
Proof.
  induction l as [|x l IH]; intros H; [reflexivity|]. cbn [filter].
  rewrite (H x) by now left. f_equal. apply IH.
  intros y Hy. apply H. now right.
Qed.

(** From a state with the submit button enabled, a submit followed by the
    fulfilment of its request sends the whole selection, in order, to the
    endpoint of the mode, and ends idle: selection empty, success message,
    percentage 100, the interval gone, the reset timeout pending, and the
    requests in flight those from before. *)
Theorem submit_then_fulfilled
  (resetMode : bool) (response : Response.t) (w : World) :
  submitDisabled w = false ->
  idsBelowNext w ->
  state (viewRun resetMode w [Submit; Fulfilled (nextTimer w) response]) =
    {| files := [];
       message := {| text := Response.message (Response.data response);
                     type := "success" |};
       isUploading := false;
       uploadProgress := 100 |} /\
  requests (viewRun resetMode w [Submit; Fulfilled (nextTimer w) response]) =
    (requests w ++
     [(nextTimer w,
       {| endpoint := if resetMode then resetFiles else uploadFiles;
          formData := map (fun file => ("files", file))
                          (files (state w)) |})])%list /\
  inFlight (viewRun resetMode w [Submit; Fulfilled (nextTimer w) response]) =
    inFlight w /\
  timers (viewRun resetMode w [Submit; Fulfilled (nextTimer w) response]) =
    (timers w ++ [Timeout (S (nextTimer w)) 2000])%list.
Proof.
  intros H [Ht Hi]. pose proof H as H'.
  unfold submitDisabled in H'. apply orb_false_iff in H'.
  destruct H' as [Hu Hl].
  assert (files (state w) <> []) as Hne.
  { intros E. rewrite E in Hl. discriminate. }
  cbn [viewRun fold_left].
  assert (viewStep resetMode w Submit =
          issue (nextTimer w)
            {| endpoint := if resetMode then resetFiles else uploadFiles;
               formData := map (fun file => ("files", file))
                               (files (state w)) |}
            (setInterval 300
               (setMessage noMessage
                  (setUploadProgress 0 (setIsUploading true w))))) as ->.
  { unfold viewStep. cbn [enabled]. rewrite H. cbn [negb step].
    destruct (handleSubmit_cases resetMode w) as [[E _]|[_ ->]];
      [contradiction | reflexivity]. }
  set (w1 := issue _ _ _).
  assert (isInFlight (nextTimer w) w1 = true) as Hin.
  { unfold isInFlight.
    change (inFlight w1) with (inFlight w ++ [nextTimer w])%list.
    rewrite existsb_app. cbn [existsb]. rewrite Nat.eqb_refl.
    now rewrite orb_true_r. }
  unfold viewStep. cbn [enabled step]. rewrite Hin.
  split; [reflexivity|]. split; [reflexivity|]. split.
  - change (filter (fun k => negb (k =? nextTimer w)%nat)
                   (inFlight w ++ [nextTimer w]) = inFlight w).
    rewrite filter_app. cbn [filter]. rewrite Nat.eqb_refl. cbn [negb].
    rewrite app_nil_r. apply filter_keeps_all.
    intros k Hk. apply negb_true_iff, Nat.eqb_neq.
    specialize (Hi k Hk). intros ->. now apply Nat.lt_irrefl in Hi.
  - change (filter (fun t => negb (timer_id t =? nextTimer w)%nat)
                   (timers w ++ [Interval (nextTimer w) 300]) ++
            [Timeout (S (nextTimer w)) 2000] =
            timers w ++ [Timeout (S (nextTimer w)) 2000])%list.
    rewrite filter_app. cbn [filter timer_id]. rewrite Nat.eqb_refl.
    cbn [negb]. rewrite app_nil_r. f_equal. apply filter_keeps_all.
    intros t Hin'. apply negb_true_iff, Nat.eqb_neq.
    specialize (Ht t Hin'). intros E. rewrite E in Ht.
    now apply Nat.lt_irrefl in Ht.
Qed.

Lemma submit_then_fulfilled_witness :
  state (viewRun true
           (setFiles [ {| name := "a.pdf"; size := 1 |} ] initialWorld)
           [ Submit;
             Fulfilled 0
               {| Response.data := {| Response.message := "done" |} |} ]) =
  {| files := [];
     message := {| text := "done"; type := "success" |};
     isUploading := false;
     uploadProgress := 100 |}.
Proof.
  refine (proj1 (submit_then_fulfilled true
           {| Response.data := {| Response.message := "done" |} |}
           (setFiles [ {| name := "a.pdf"; size := 1 |} ] initialWorld)
           eq_refl _)).
  split; [intros t [] | intros k []].
Defined.

End UploaderExtra.

(** ** More on the chat flow *)

Module ChatExtra.
Import Js Chat ChatEvents ChatView ChatFacts.

(** When the request of a sent text is rejected, the transcript gains the
    user turn and then a bot turn with the fixed apology and no sources;
    the input is empty, the loading flag is cleared, and the one request
    carried the text as typed. *)
Theorem send_then_rejected (now later : Date) (w : World) :
  allWhiteSpace (input (state w)) = false ->
  state (sendMessage_rejected later (fst (sendMessage now w))) =
    {| messages :=
         messages (state w) ++
         [ {| sender := user; text := input (state w);
              timestamp := now; sources := None |};
           {| sender := bot; text := apology;
              timestamp := later; sources := None |} ];
       input := "";
       loading := false |} /\
  requests (sendMessage_rejected later (fst (sendMessage now w))) =
    (requests w ++ [input (state w)])%list.
Proof.
  intros H. unfold sendMessage. rewrite trim_truthy, H.
  cbn [negb fst sendMessage_rejected setLoading appendMessage askQuestion
       setInput withState state messages input loading requests].
  now rewrite <- app_assoc.
Qed.

Lemma send_then_rejected_witness :
  map text (messages (state (sendMessage_rejected 9%N
     (fst (sendMessage 5%N (setInput "find suppliers" (initialWorld 0%N)))))))
  = [greeting; "find suppliers"; apology].
Proof.
  rewrite (proj1 (send_then_rejected 5%N 9%N
                    (setInput "find suppliers" (initialWorld 0%N)) eq_refl)).
  reflexivity.
Defined.

Lemma step_appends (w : World) (e : Event) :
  exists added,
    messages (state (step w e)) = (messages (state w) ++ added)%list /\
    requests (step w e) =
      (requests w ++ userTexts added)%list.
Proof.
  destruct e as [value|now|now res|now]; cbn [step].
  - exists []. now rewrite !app_nil_r.
  - unfold sendMessage.
    destruct (negb (truthy (trim (input (state w))))).
    + exists []. now rewrite !app_nil_r.
    + now exists [ {| sender := user; text := input (state w);
                      timestamp := now; sources := None |} ].
  - eexists [ _ ]. split; [reflexivity|]. cbn. now rewrite app_nil_r.
  - eexists [ _ ]. split; [reflexivity|]. cbn. now rewrite app_nil_r.
Qed.

Lemma userTexts_app (a b : list Turn) :
  userTexts (a ++ b) = (userTexts a ++ userTexts b)%list.
Proof. unfold userTexts. now rewrite filter_app, map_app. Qed.

Lemma run_appends (es : list Event) :
  forall w, exists added,
    messages (state (run w es)) = (messages (state w) ++ added)%list /\
    requests (run w es) = (requests w ++ userTexts added)%list.
Proof.
  induction es as [|e es IH]; intros w.
  - exists []. now rewrite !app_nil_r.
  - cbn [run fold_left].
    destruct (step_appends w e) as [a1 [Hm1 Hr1]].
    destruct (IH (step w e)) as [a2 [Hm2 Hr2]].
    exists (a1 ++ a2)%list. split.
    + unfold run in Hm2. now rewrite Hm2, Hm1, app_assoc.
    + unfold run in Hr2. now rewrite Hr2, Hr1, userTexts_app, app_assoc.
Qed.

(** The transcript only grows at its end: after any events, the turns from
    before are still there, in place and unchanged, and the new ones
    follow them. *)
Theorem transcript_is_append_only (w : World) (es : list Event) :
  exists added,
    messages (state (run w es)) = (messages (state w) ++ added)%list.
Proof.
  destruct (run_appends es w) as [added [H _]]. now exists added.
Qed.

(** The requests issued are the user's turns: after any events from the
    initial state, the questions asked of the backend are the texts of the
    user turns of the transcript, one request for each, in the same
    order. *)
Theorem one_request_per_user_turn (now : Date) (es : list Event) :
  requests (run (initialWorld now) es) =
  userTexts (messages (state (run (initialWorld now) es))).
Proof.
  destruct (run_appends es (initialWorld now)) as [added [Hm Hr]].
  rewrite Hr, Hm, userTexts_app. reflexivity.
Qed.

Lemma alternates_grows (n : nat) :
  forall ss, length ss <= n ->
    (alternates ss false = true -> alternates (ss ++ [user]) true = true) /\
    (alternates ss true = true -> alternates (ss ++ [bot]) false = true).
Proof.
  induction n as [|n IH]; intros ss Hn.
  - destruct ss; [|now apply Nat.nle_succ_0 in Hn].
    split; [reflexivity | discriminate].
  - destruct ss as [|[|] [|[|] rest]]; cbn [alternates app];
      try (split; (reflexivity || discriminate)).
    apply (IH rest). cbn [length] in Hn.
    apply Nat.succ_le_mono in Hn. apply Nat.le_trans with (S (length rest)).
    + apply Nat.le_succ_diag_r.
    + exact Hn.
Qed.

Lemma viewStep_alternates (w : World) (e : Event) (ss : list Sender) :
  map sender (messages (state w)) = bot :: ss ->
  alternates ss (loading (state w)) = true ->
  exists ss',
    map sender (messages (state (viewStep w e))) = bot :: ss' /\
    alternates ss' (loading (state (viewStep w e))) = true.
Proof.
  intros Hm Ha. unfold viewStep.
  destruct (enabled w e) eqn:En; [|now exists ss].
  destruct e as [value|now|now res|now]; cbn [enabled step] in *.
  - now exists ss.
  - unfold inputDisabled in En. apply negb_true_iff in En.
    unfold sendMessage.
    destruct (negb (truthy (trim (input (state w))))); cbn [fst].
    + now exists ss.
    + exists (ss ++ [user])%list. split.
      * cbn [setLoading setInput appendMessage askQuestion withState
             state messages].
        now rewrite map_app, Hm.
      * rewrite En in Ha.
        now apply (alternates_grows (length ss) ss (Nat.le_refl _)).
  - exists (ss ++ [bot])%list. split.
    + cbn [sendMessage_fulfilled setLoading appendMessage withState
           state messages].
      now rewrite map_app, Hm.
    + rewrite En in Ha.
      now apply (alternates_grows (length ss) ss (Nat.le_refl _)).
  - exists (ss ++ [bot])%list. split.
    + cbn [sendMessage_rejected setLoading appendMessage withState
           state messages].
      now rewrite map_app, Hm.
    + rewrite En in Ha.
      now apply (alternates_grows (length ss) ss (Nat.le_refl _)).
Qed.

(** Driven through its view, the transcript is the greeting followed by
    pairs of a user turn and the bot turn that answers it, with one more
    user turn at the end exactly while a request is outstanding: no two
    questions are ever asked before an answer or an apology comes. *)
Theorem transcript_alternates (now : Date) (es : list Event) :
  exists ss,
    map sender (messages (state (viewRun (initialWorld now) es))) =
      bot :: ss /\
    alternates ss (loading (state (viewRun (initialWorld now) es))) = true.
Proof.
  assert (forall es w ss,
             map sender (messages (state w)) = bot :: ss ->
             alternates ss (loading (state w)) = true ->
             exists ss',
               map sender (messages (state (viewRun w es))) = bot :: ss' /\
               alternates ss' (loading (state (viewRun w es))) = true) as H.
  { clear. intros es. induction es as [|e es IH]; intros w ss Hm Ha.
    - now exists ss.
    - cbn [viewRun fold_left].
      destruct (viewStep_alternates w e ss Hm Ha) as [ss1 [Hm1 Ha1]].
      exact (IH _ ss1 Hm1 Ha1). }
  now apply (H es (initialWorld now) []).
Qed.

End ChatExtra.
